(** * restapi-typescript-decorators: the request-assembly pipeline of
      [src/index.ts], embedded in Rocq.

    The module decorates the methods of a class so that calling one of them
    assembles fetch options (URL, method, headers, body) and hands them to a
    transport.  Everything up to the transport call is synchronous object
    manipulation; that part is modelled here as pure functions over a small
    universe of JavaScript values.

    Conventions of the model.
    - Strings are byte strings; [toLowerCase]/[toUpperCase] map the ASCII
      letters only, which is what the language does on strings written in
      ASCII ([ascii_only]).
    - Numbers are integers, and [ToString] writes them in plain decimal:
      the form the language gives the safe integers ([safe_integer]).
    - Objects are plain objects: an association list in insertion order whose
      property names are pairwise distinct (every update in this file goes
      through [set_prop], which keeps them so).  A body or an argument is
      plain data: [undefined], [null], booleans, integers, strings and
      objects of these; functions, symbols, big integers and cyclic objects
      are not part of the universe.
    - A plain object has its own properties only.  The members every object
      inherits from [Object.prototype] are named in [inherited_names]; an
      object with a [toString] or [valueOf] of its own has no string form
      here ([stringable]).
    - Arrays occur in one place, the metadata store that [lodash.set]
      writes.  The plain store ([baseSet]) has objects only; module [Arrays]
      has the store with its arrays, and the two agree where every name is
      an ordinary one ([ordinary_name]).
    - A call that may throw returns an [outcome]. *)

From Stdlib Require Import String Ascii List ZArith NArith Lia Bool.
From Stdlib Require Import DecimalString DecimalNat DecimalN.
Import ListNotations.
Local Open Scope list_scope.
Local Open Scope string_scope.

(** ** JavaScript values *)

#[warnings="-register-all"]
Inductive value : Type :=
| VUndef
| VNull
| VBool (b : bool)
| VNum (n : Z)
| VStr (s : string)
| VObj (props : list (string * value)).

Definition obj : Type := list (string * value).

Inductive error : Type :=
| TypeError
| SyntaxError.

(** [OutOfModel] marks the places where the embedding stops short of the
    language: a regular expression whose source uses syntax characters and,
    in the store of module [Arrays], a member found on a prototype or a
    write that the language refuses. *)
Inductive outcome (A : Type) : Type :=
| Ok (a : A)
| Throw (e : error)
| OutOfModel.

Arguments Ok {A} a.
Arguments Throw {A} e.
Arguments OutOfModel {A}.

Definition bind {A B : Type} (m : outcome A) (k : A -> outcome B) : outcome B :=
  match m with
  | Ok a => k a
  | Throw e => Throw e
  | OutOfModel => OutOfModel
  end.

Notation "x <- m ;; k" := (bind m (fun x => k))
  (at level 61, m at next level, right associativity).

(** ** Strings *)

Definition is_upper (c : ascii) : bool :=
  let n := nat_of_ascii c in (65 <=? n)%nat && (n <=? 90)%nat.

Definition is_lower (c : ascii) : bool :=
  let n := nat_of_ascii c in (97 <=? n)%nat && (n <=? 122)%nat.

Definition lower_char (c : ascii) : ascii :=
  if is_upper c then ascii_of_nat (nat_of_ascii c + 32) else c.

Definition upper_char (c : ascii) : ascii :=
  if is_lower c then ascii_of_nat (nat_of_ascii c - 32) else c.

Fixpoint map_string (f : ascii -> ascii) (s : string) : string :=
  match s with
  | EmptyString => EmptyString
  | String c r => String (f c) (map_string f r)
  end.

Definition toLowerCase (s : string) : string := map_string lower_char s.
Definition toUpperCase (s : string) : string := map_string upper_char s.

(** [s.indexOf(needle)]: position of the first occurrence, [-1] when there is
    none. *)
Fixpoint indexOf_from (needle s : string) (i : Z) : Z :=
  if String.prefix needle s then i
  else match s with
       | EmptyString => (-1)%Z
       | String _ r => indexOf_from needle r (i + 1)%Z
       end.

Definition indexOf (s needle : string) : Z := indexOf_from needle s 0%Z.

Fixpoint string_forallb (p : ascii -> bool) (s : string) : bool :=
  match s with
  | EmptyString => true
  | String c r => p c && string_forallb p r
  end.

Fixpoint string_existsb (p : ascii -> bool) (s : string) : bool :=
  match s with
  | EmptyString => false
  | String c r => p c || string_existsb p r
  end.

Definition is_digit (c : ascii) : bool :=
  let n := nat_of_ascii c in (48 <=? n)%nat && (n <=? 57)%nat.

(** ** Conversions *)

(** [ToString] of the specification of the language. *)
Definition ToString (v : value) : string :=
  match v with
  | VUndef => "undefined"
  | VNull => "null"
  | VBool true => "true"
  | VBool false => "false"
  | VNum n => NilZero.string_of_int (Z.to_int n)
  | VStr s => s
  | VObj _ => "[object Object]"
  end.

(** [ToBoolean]: what [||], [&&] and [if] look at. *)
Definition truthy (v : value) : bool :=
  match v with
  | VUndef | VNull => false
  | VBool b => b
  | VNum n => negb (n =? 0)%Z
  | VStr s => negb (s =? "")
  | VObj _ => true
  end.

(** [a || b] *)
Definition js_or (a b : value) : value := if truthy a then a else b.

Definition value_eq_str (v : value) (s : string) : bool :=
  match v with
  | VStr t => t =? s
  | _ => false
  end.

(** ** Property names that are array indices

    Own keys of an object enumerate the array indices first, in ascending
    numeric order, then the other names in insertion order. *)

(** A name is an array index when it is the decimal form of a number below
    [2^32 - 1]. *)
Definition array_index (k : string) : option N :=
  match NilZero.uint_of_string k with
  | Some d =>
      let n := N.of_uint d in
      if (NilZero.string_of_uint (N.to_uint n) =? k) && (n <=? 4294967294)%N
      then Some n
      else None
  | None => None
  end.

Fixpoint insert_index (e : N * string) (l : list (N * string)) : list (N * string) :=
  match l with
  | [] => [e]
  | e' :: r => if (fst e <=? fst e')%N then e :: l else e' :: insert_index e r
  end.

Definition sort_indices (l : list (N * string)) : list (N * string) :=
  fold_right insert_index [] l.

Fixpoint index_names (ks : list string) : list (N * string) :=
  match ks with
  | [] => []
  | k :: r =>
      match array_index k with
      | Some n => (n, k) :: index_names r
      | None => index_names r
      end
  end.

Definition is_index_name (k : string) : bool :=
  match array_index k with Some _ => true | None => false end.

Definition order_keys (ks : list string) : list string :=
  (map snd (sort_indices (index_names ks))
   ++ filter (fun k => negb (is_index_name k)) ks)%list.

(** ** Objects *)

Fixpoint assoc (k : string) (o : obj) : option value :=
  match o with
  | [] => None
  | (k', v) :: r => if k' =? k then Some v else assoc k r
  end.

Definition own (o : obj) (k : string) : value :=
  match assoc k o with
  | Some v => v
  | None => VUndef
  end.

(** [o[k] = v] on a plain object. *)
Fixpoint set_prop (o : obj) (k : string) (v : value) : obj :=
  match o with
  | [] => [(k, v)]
  | (k', v') :: r =>
      if k' =? k then (k, v) :: r else (k', v') :: set_prop r k v
  end.

Fixpoint remove_key (k : string) (o : obj) : obj :=
  match o with
  | [] => []
  | (k', v) :: r =>
      if k' =? k then remove_key k r else (k', v) :: remove_key k r
  end.

(** The object left by a rest pattern [{a, b, ...rest}]. *)
Definition rest_without (ks : list string) (o : obj) : obj :=
  fold_left (fun acc k => remove_key k acc) ks o.

Definition own_keys (o : obj) : list string := order_keys (map fst o).

Fixpoint string_chars (s : string) (i : nat) : obj :=
  match s with
  | EmptyString => []
  | String c r =>
      (NilZero.string_of_uint (Nat.to_uint i), VStr (String c EmptyString))
        :: string_chars r (S i)
  end.

(** [v[k]] for a value that is neither [null] nor [undefined].  A string has
    its length and its characters; numbers and booleans have nothing of their
    own. *)
Definition prop (v : value) (k : string) : value :=
  match v with
  | VObj o => own o k
  | VStr s =>
      if k =? "length" then VNum (Z.of_nat (String.length s))
      else own (string_chars s 0) k
  | _ => VUndef
  end.

(** [Object.keys(v)] *)
Definition Object_keys (v : value) : outcome (list string) :=
  match v with
  | VUndef | VNull => Throw TypeError
  | VObj o => Ok (own_keys o)
  | VStr s => Ok (map fst (string_chars s 0))
  | _ => Ok []
  end.

(** The own enumerable properties [lodash.assign] copies from a source, in
    the order it copies them. *)
Definition enumerable_entries (src : value) : obj :=
  match src with
  | VObj o => map (fun k => (k, own o k)) (own_keys o)
  | VStr s => string_chars s 0
  | _ => []
  end.

(** ** The lodash helpers: [get], [set], [assign] *)

(** [baseGet]: walk the path, stopping at [null] or [undefined]. *)
Fixpoint baseGet (v : value) (path : list string) : value :=
  match path with
  | [] => v
  | k :: r =>
      match v with
      | VUndef | VNull => VUndef
      | _ => baseGet (prop v k) r
      end
  end.

(** [get(object, path, defaultValue)] where [root] reads a property of
    [object]. *)
Definition get_from (root : string -> value) (path : list string)
    (defaultValue : value) : value :=
  match path with
  | [] => defaultValue
  | k :: r =>
      match baseGet (root k) r with
      | VUndef => defaultValue
      | res => res
      end
  end.

(** [baseSet]: an intermediate property that is not an object is replaced by
    a fresh one.  This is the store on paths of ordinary names; before an
    index-like key lodash makes the fresh container an array, which
    [Arrays.baseSet] below has. *)
Fixpoint baseSet (o : obj) (path : list string) (v : value) : obj :=
  match path with
  | [] => o
  | k :: r =>
      match r with
      | [] => set_prop o k v
      | _ :: _ =>
          let nested := match own o k with VObj c => c | _ => [] end in
          set_prop o k (VObj (baseSet nested r v))
      end
  end.

Definition set (target : obj) (path : list string) (v : value) : obj :=
  baseSet target path v.

Definition assign_one (target : obj) (src : value) : obj :=
  fold_left (fun o kv => set_prop o (fst kv) (snd kv))
            (enumerable_entries src) target.

(** [objectAssign(target, ...sources)] *)
Definition objectAssign (target : obj) (sources : list value) : obj :=
  fold_left assign_one sources target.

(** ** Instances

    An instance reads a property from itself first and from the class
    prototype otherwise. *)

Record instance : Type := {
  own_props : obj;
  proto : obj
}.

Definition inst_prop (i : instance) (k : string) : value :=
  match assoc k (own_props i) with
  | Some v => v
  | None => own (proto i) k
  end.

Definition get (i : instance) (path : list string) (defaultValue : value) : value :=
  get_from (inst_prop i) path defaultValue.

(** [inputs[idx]] on the argument array of a call. *)
Definition element (inputs : list value) (idx : value) : value :=
  match array_index (ToString idx) with
  | Some n => nth (N.to_nat n) inputs VUndef
  | None =>
      if ToString idx =? "length" then VNum (Z.of_nat (List.length inputs))
      else VUndef
  end.

(** ** [JSON.stringify] *)

Definition dquote : ascii := ascii_of_nat 34.

Definition hex_digit (n : nat) : ascii :=
  if (n <? 10)%nat then ascii_of_nat (48 + n) else ascii_of_nat (87 + n).

Definition json_escape (c : ascii) : string :=
  let n := nat_of_ascii c in
  if (n =? 34)%nat then String "\" (String dquote EmptyString)
  else if (n =? 92)%nat then "\\"
  else if (n =? 8)%nat then "\b"
  else if (n =? 12)%nat then "\f"
  else if (n =? 10)%nat then "\n"
  else if (n =? 13)%nat then "\r"
  else if (n =? 9)%nat then "\t"
  else if (n <? 32)%nat then
    "\u00" ++ String (hex_digit (n / 16)) (String (hex_digit (n mod 16)) EmptyString)
  else String c EmptyString.

Fixpoint json_escape_all (s : string) : string :=
  match s with
  | EmptyString => EmptyString
  | String c r => json_escape c ++ json_escape_all r
  end.

Definition json_quote (s : string) : string :=
  String dquote (json_escape_all s) ++ String dquote EmptyString.

Fixpoint join (sep : string) (l : list string) : string :=
  match l with
  | [] => EmptyString
  | [x] => x
  | x :: r => x ++ sep ++ join sep r
  end.

Fixpoint assoc_text (k : string) (l : list (string * option string)) : option string :=
  match l with
  | [] => None
  | (k', t) :: r => if k' =? k then t else assoc_text k r
  end.

(** [None] stands for the [undefined] that [JSON.stringify] returns for
    [undefined]; members whose value is [undefined] are left out of an
    object. *)
Fixpoint stringify (v : value) : option string :=
  match v with
  | VUndef => None
  | VNull => Some "null"
  | VBool _ | VNum _ => Some (ToString v)
  | VStr s => Some (json_quote s)
  | VObj o =>
      let texts :=
        (fix members (l : obj) : list (string * option string) :=
           match l with
           | [] => []
           | (k, x) :: r => (k, stringify x) :: members r
           end) o in
      let member k :=
        match assoc_text k texts with
        | Some t => [json_quote k ++ ":" ++ t]
        | None => []
        end in
      Some ("{" ++ join "," (flat_map member (own_keys o)) ++ "}")
  end.

Definition JSON_stringify (v : value) : value :=
  match stringify v with
  | Some t => VStr t
  | None => VUndef
  end.

(** ** Base64, as [Buffer.from(str).toString('base64')] gives it *)

Definition base64_alphabet : list ascii :=
  list_ascii_of_string
    "ABCDEFGHIJKLMNOPQRSTUVWXYZabcdefghijklmnopqrstuvwxyz0123456789+/".

Definition sextet (n : nat) : ascii := nth n base64_alphabet "="%char.

Fixpoint base64_bytes (l : list nat) : string :=
  match l with
  | [] => EmptyString
  | [a] =>
      String (sextet (a / 4))
        (String (sextet ((a mod 4) * 16)) "==")
  | [a; b] =>
      String (sextet (a / 4))
        (String (sextet ((a mod 4) * 16 + b / 16))
           (String (sextet ((b mod 16) * 4)) "="))
  | a :: b :: c :: r =>
      String (sextet (a / 4))
        (String (sextet ((a mod 4) * 16 + b / 16))
           (String (sextet ((b mod 16) * 4 + c / 64))
              (String (sextet (c mod 64)) (base64_bytes r))))
  end.

Definition _getBase64FromString (str : string) : string :=
  base64_bytes (map nat_of_ascii (list_ascii_of_string str)).

(** ** Regular expressions and [String.prototype.replace]

    The only regular expressions of the module are [new RegExp(`{${key}}`, 'g')].
    When [key] has no syntax character the source is a run of pattern
    characters and matches itself, unless the braces enclose a quantifier
    body ([{2}], [{2,}], [{2,5}]), which has nothing to repeat and is a
    syntax error.  A key with a syntax character (one of the fourteen listed
    in [syntax_character]) is given no meaning here. *)

Inductive RegExp : Type :=
| Literal (source : string).

Definition syntax_character (c : ascii) : bool :=
  string_existsb (Ascii.eqb c) "^$\.*+?()[]{}|".

Fixpoint skip_digits (s : string) : string :=
  match s with
  | EmptyString => EmptyString
  | String c r => if is_digit c then skip_digits r else s
  end.

Definition quantifier_body (s : string) : bool :=
  match s with
  | EmptyString => false
  | String c _ =>
      is_digit c
      && match skip_digits s with
         | EmptyString => true
         | String d r => Ascii.eqb d ","%char && string_forallb is_digit r
         end
  end.

(** [new RegExp(`{${key}}`, 'g')] *)
Definition RegExp_braces (key : string) : outcome RegExp :=
  if quantifier_body key then Throw SyntaxError
  else if string_existsb syntax_character key then OutOfModel
  else Ok (Literal ("{" ++ key ++ "}")).

Fixpoint drop (n : nat) (s : string) : string :=
  match n, s with
  | O, _ => s
  | S k, EmptyString => EmptyString
  | S k, String _ r => drop k r
  end.

(** [GetSubstitution] for a match without capture groups: [$$], [$&], [$`]
    and [$'] are expanded, any other [$] stands for itself. *)
Fixpoint GetSubstitution (matched before after template : string) : string :=
  match template with
  | EmptyString => EmptyString
  | String c t =>
      if Ascii.eqb c "$"%char then
        match t with
        | EmptyString => "$"
        | String d r =>
            if Ascii.eqb d "$"%char then
              "$" ++ GetSubstitution matched before after r
            else if Ascii.eqb d "&"%char then
              matched ++ GetSubstitution matched before after r
            else if Ascii.eqb d "`"%char then
              before ++ GetSubstitution matched before after r
            else if Ascii.eqb d "'"%char then
              after ++ GetSubstitution matched before after r
            else "$" ++ GetSubstitution matched before after t
        end
      else String c (GetSubstitution matched before after t)
  end.

(** The scan of a global replace: [pos] is the position in [subject] of the
    suffix [s], [skip] the number of characters of the last match still to
    pass over. *)
Fixpoint replace_scan (pat template subject : string) (pos skip : nat)
    (s : string) : string :=
  match s with
  | EmptyString => EmptyString
  | String c r =>
      match skip with
      | S k => replace_scan pat template subject (S pos) k r
      | O =>
          if String.prefix pat s then
            GetSubstitution pat (substring 0 pos subject)
                            (drop (String.length pat) s) template
            ++ replace_scan pat template subject (S pos)
                            (String.length pat - 1) r
          else String c (replace_scan pat template subject (S pos) 0 r)
      end
  end.

(** [subject.replace(re, replaceValue)] with a global [re] *)
Definition String_replace (subject : string) (re : RegExp)
    (replaceValue : value) : string :=
  match re with
  | Literal pat => replace_scan pat (ToString replaceValue) subject 0 0 subject
  end.

(** ** Enumerations *)

Module AuthTypeEnum.
Definition Basic : string := "Basic".
Definition Bearer : string := "Bearer".
Definition Digest : string := "Digest".
End AuthTypeEnum.

Module HttpVerbEnum.
Definition GET : string := "GET".
Definition POST : string := "POST".
Definition DELETE : string := "DELETE".
Definition PUT : string := "PUT".
Definition PATCH : string := "PATCH".
End HttpVerbEnum.

Inductive credentialType : Type :=
| AccessToken
| Username
| Password.

Definition credentialType_name (c : credentialType) : string :=
  match c with
  | AccessToken => "AccessToken"
  | Username => "Username"
  | Password => "Password"
  end.

(** ** Helpers of the interceptor *)

Definition _isOfTypeJson (typeAsString : value) : outcome bool :=
  match js_or typeAsString (VStr "") with
  | VStr s => Ok (0 <=? indexOf (toLowerCase s) "application/json")%Z
  | _ => Throw TypeError
  end.

(** [v.headers['Accept']] *)
Definition accept_header (fetchOptionToUse : obj) : outcome value :=
  match own fetchOptionToUse "headers" with
  | VUndef | VNull => Throw TypeError
  | headers => Ok (prop headers "Accept")
  end.

Definition _defaultRequestTransform (fetchOptionToUse : obj) (body : value)
    (inst : instance) : outcome obj :=
  bodyToUse <-
    (if value_eq_str (own fetchOptionToUse "method") HttpVerbEnum.GET
     then Ok VUndef
     else
       accept <- accept_header fetchOptionToUse ;;
       json <- _isOfTypeJson accept ;;
       Ok (if json then JSON_stringify body else js_or body VNull)) ;;
  Ok (objectAssign fetchOptionToUse [VObj [("body", bodyToUse)]]).

Definition _getRequestBody (inst : instance) (methodName : string)
    (inputs : list value) : value :=
  element inputs (get inst ["__decorators"; methodName; "@RequestBody"] VUndef).

Definition _getPathParams (inst : instance) (methodName : string) : value :=
  get inst ["__decorators"; methodName; "@PathParam"] (VObj []).

Definition _getQueryParams (inst : instance) (methodName : string)
    (inputs : list value) : value :=
  js_or (element inputs
           (get inst ["__decorators"; methodName; "@QueryParams"] VUndef))
        (VObj []).

Definition credential_property (inst : instance) (c : credentialType) : value :=
  inst_prop inst
    (ToString (get inst ["__decorators"; "@CredentialProperty";
                         credentialType_name c] VUndef)).

Definition _getCredential (inst : instance) : value :=
  let authType := inst_prop inst "authType" in
  if value_eq_str authType AuthTypeEnum.Bearer then
    credential_property inst AccessToken
  else if value_eq_str authType AuthTypeEnum.Basic then
    let username := credential_property inst Username in
    let password := credential_property inst Password in
    VStr (_getBase64FromString (ToString username ++ ":" ++ ToString password))
  else VUndef.

(** ** Decorators *)

Definition PathParam (paramKey : string) (target : obj) (methodName : string)
    (paramIdx : nat) : obj :=
  set target ["__decorators"; methodName; "@PathParam"; paramKey]
      (VNum (Z.of_nat paramIdx)).

Definition QueryParams (target : obj) (methodName : string) (paramIdx : nat) : obj :=
  set target ["__decorators"; methodName; "@QueryParams"] (VNum (Z.of_nat paramIdx)).

Definition RequestBody (target : obj) (methodName : string) (paramIdx : nat) : obj :=
  set target ["__decorators"; methodName; "@RequestBody"] (VNum (Z.of_nat paramIdx)).

Definition CredentialProperty (c : credentialType) (target : obj)
    (propertyName : string) : obj :=
  set target ["__decorators"; "@CredentialProperty"; credentialType_name c]
      (VStr propertyName).

Definition builtin_configs : obj :=
  [("mode", VStr "cors"); ("cache", VStr "no-cache");
   ("credentials", VStr "include"); ("headers", VObj [])].

Definition builtin_headers : obj :=
  [("Accept", VStr "application/json");
   ("Content-Type", VStr "application/json")].

Definition defaultConfigsToUse (restOptions : obj) : obj :=
  let defaultConfigs := rest_without ["baseUrl"; "authType"] restOptions in
  let merged := objectAssign builtin_configs [VObj defaultConfigs] in
  set_prop merged "headers"
    (VObj (objectAssign builtin_headers [own merged "headers"])).

(** [RestClient(restOptions)(target)]: the prototype shared by the instances
    of the returned class. *)
Definition RestClient (restOptions : obj) (target : obj) : obj :=
  let baseUrl := own restOptions "baseUrl" in
  let authType := own restOptions "authType" in
  let p1 := set_prop target "defaultConfigs" (VObj (defaultConfigsToUse restOptions)) in
  let p2 := set_prop p1 "baseUrl" baseUrl in
  set_prop p2 "authType" (js_or authType (VStr "")).

(** ** The interceptor installed by [RestApi(url, restApiOptions)] *)

(** What the interceptor reads of a transport response. *)
Record Response : Type := {
  resp_url : value;
  resp_ok : value;
  resp_status : value;
  resp_statusText : value;
  resp_headers : value;
  resp_text : string
}.

(** [options] holds the data properties of [restApiOptions]; the two
    transforms are functions and kept apart. *)
Record RestApiOptions : Type := {
  options : obj;
  request_transform : option (obj -> value -> instance -> outcome obj);
  response_transform : option (obj -> Response -> instance -> outcome value)
}.

(** The response handle once the request has run its course; a rejected
    [result] is a [Throw]. *)
Record ApiResponse : Type := {
  url : value;
  request_headers : value;
  request_body : value;
  response_headers : value;
  status : value;
  statusText : value;
  ok : value;
  result : outcome value
}.

(** A destructuring default [x = d]. *)
Definition or_default (v d : value) : value :=
  match v with
  | VUndef => d
  | _ => v
  end.

Section Interceptor.

(** The collaborators the module takes from its environment: the
    query-string encoder, the JSON parser (which throws on malformed text,
    here [None]) and the transport. *)
Variable qs_stringify : value -> string.
Variable JSON_parse : string -> option value.
Variable nodeFetch : value -> obj -> outcome Response.

Definition _defaultResponseTransform (fetchOptionToUse : obj)
    (resp : Response) (inst : instance) : outcome value :=
  let respText := resp_text resp in
  accept <- accept_header fetchOptionToUse ;;
  json <- _isOfTypeJson accept ;;
  Ok (if json then
        match JSON_parse respText with
        | Some parsed => parsed
        | None => VStr respText
        end
      else VStr respText).

Definition _fetchData (fetchOptions : obj) : outcome Response :=
  nodeFetch (own fetchOptions "url") (remove_key "url" fetchOptions).

(** The [forEach] over [Object.keys(pathParams)]. *)
Fixpoint replace_path_params (pathParams : value) (inputs : list value)
    (keys : list string) (urlToUse : string) : outcome string :=
  match keys with
  | [] => Ok urlToUse
  | paramKey :: rest =>
      let paramIdx := prop pathParams paramKey in
      let paramValue := element inputs paramIdx in
      re <- RegExp_braces paramKey ;;
      replace_path_params pathParams inputs rest
        (String_replace urlToUse re paramValue)
  end.

(** [urlToUse] once the wild cards are filled in. *)
Definition RestApi_pathUrl (url : string) (inst : instance)
    (methodName : string) (inputs : list value) : outcome string :=
  let baseUrl := inst_prop inst "baseUrl" in
  let pathParams := _getPathParams inst methodName in
  keys <- Object_keys pathParams ;;
  replace_path_params pathParams inputs keys (ToString baseUrl ++ url).

(** [urlToUse] with the query string. *)
Definition RestApi_urlToUse (url : string) (inst : instance)
    (methodName : string) (inputs : list value) : outcome string :=
  urlToUse <- RestApi_pathUrl url inst methodName inputs ;;
  let queryParams := _getQueryParams inst methodName inputs in
  keys <- Object_keys queryParams ;;
  Ok (if (0 <? List.length keys)%nat
      then urlToUse ++ "?" ++ qs_stringify queryParams
      else urlToUse).

(** [objectAssign({}, defaultConfigs.headers, headers)] *)
Definition RestApi_mergedHeaders (headers : value) (inst : instance) : outcome obj :=
  match inst_prop inst "defaultConfigs" with
  | VUndef | VNull => Throw TypeError
  | defaultConfigs =>
      Ok (objectAssign [] [prop defaultConfigs "headers"; headers])
  end.

(** [headersToUse] with the auth header. *)
Definition RestApi_headersToUse (headers : value) (inst : instance) : outcome obj :=
  headersToUse <- RestApi_mergedHeaders headers inst ;;
  let authType := inst_prop inst "authType" in
  let credential := _getCredential inst in
  Ok (if truthy authType && truthy credential
      then set_prop headersToUse "Authorization"
             (VStr (ToString authType ++ " " ++ ToString credential))
      else headersToUse).

Definition method_toUpperCase (method : value) : outcome value :=
  match method with
  | VStr m => Ok (VStr (toUpperCase m))
  | _ => Throw TypeError
  end.

(** The fetch options handed to the request transform, and the body. *)
Definition RestApi_fetchOptions (url : string) (api : RestApiOptions)
    (inst : instance) (methodName : string) (inputs : list value)
  : outcome (obj * value) :=
  let headers := or_default (own (options api) "headers") (VObj []) in
  let method := or_default (own (options api) "method") (VStr HttpVerbEnum.GET) in
  let otherFetchOptions :=
    rest_without ["headers"; "method"; "request_transform"; "response_transform"]
                 (options api) in
  let requestBody := _getRequestBody inst methodName inputs in
  urlToUse <- RestApi_urlToUse url inst methodName inputs ;;
  headersToUse <- RestApi_headersToUse headers inst ;;
  upper <- method_toUpperCase method ;;
  Ok (objectAssign
        [("url", VStr urlToUse); ("method", upper);
         ("signal", VObj []); ("headers", VObj headersToUse)]
        [VObj otherFetchOptions],
      requestBody).

(** The fetch options after the request transform: what the transport is
    called with. *)
Definition RestApi_request (url : string) (api : RestApiOptions)
    (inst : instance) (methodName : string) (inputs : list value)
  : outcome obj :=
  assembled <- RestApi_fetchOptions url api inst methodName inputs ;;
  match request_transform api with
  | Some transform => transform (fst assembled) (snd assembled) inst
  | None => _defaultRequestTransform (fst assembled) (snd assembled) inst
  end.

Definition RestApi (url : string) (api : RestApiOptions)
    (inst : instance) (methodName : string) (inputs : list value)
  : outcome ApiResponse :=
  fetchOptionToUse <- RestApi_request url api inst methodName inputs ;;
  let transform :=
    match response_transform api with
    | Some f => f
    | None => _defaultResponseTransform
    end in
  Ok match _fetchData fetchOptionToUse with
     | Ok resp =>
         {| url := resp_url resp;
            request_headers := own fetchOptionToUse "headers";
            request_body := own fetchOptionToUse "body";
            response_headers := resp_headers resp;
            status := resp_status resp;
            statusText := resp_statusText resp;
            ok := resp_ok resp;
            result := transform fetchOptionToUse resp inst |}
     | Throw e =>
         {| url := VUndef;
            request_headers := own fetchOptionToUse "headers";
            request_body := own fetchOptionToUse "body";
            response_headers := VUndef;
            status := VUndef;
            statusText := VUndef;
            ok := VUndef;
            result := Throw e |}
     | OutOfModel =>
         {| url := VUndef;
            request_headers := own fetchOptionToUse "headers";
            request_body := own fetchOptionToUse "body";
            response_headers := VUndef;
            status := VUndef;
            statusText := VUndef;
            ok := VUndef;
            result := OutOfModel |}
     end.

End Interceptor.

(** ** Vocabulary of the statements *)

(** The own enumerable property [k] of a source, if it has one. *)
Definition source_prop (src : value) (k : string) : option value :=
  assoc k (enumerable_entries src).

Definition index_name (i : nat) : string :=
  NilZero.string_of_uint (Nat.to_uint i).

(** [needle] occurs in [s]. *)
Fixpoint occurs (needle s : string) : bool :=
  String.prefix needle s
  || match s with
     | EmptyString => false
     | String _ r => occurs needle r
     end.

(** An Accept header indicates JSON when it contains [application/json] in
    any letter case. *)
Definition indicates_json (accept : string) : bool :=
  occurs "application/json" (toLowerCase accept).

(** ** Sample objects for the closed instances of the statements *)

Definition sample_instance : instance :=
  {| own_props := []; proto := RestClient [("baseUrl", VStr "http://h")] [] |}.

Definition post_options : obj :=
  [("url", VStr "http://h/items"); ("method", VStr "POST"); ("signal", VObj []);
   ("headers", VObj [("Accept", VStr "application/json")])].

Definition post_text_options : obj :=
  [("url", VStr "http://h/items"); ("method", VStr "POST"); ("signal", VObj []);
   ("headers", VObj [("Accept", VStr "text/plain")])].

Definition get_options : obj :=
  [("url", VStr "http://h/items"); ("method", VStr "GET"); ("signal", VObj []);
   ("headers", VObj [("Accept", VStr "application/json")])].

Definition sample_body : value := VObj [("x", VNum 1)].

Definition sample_response (text : string) : Response :=
  {| resp_url := VStr "http://h/items"; resp_ok := VBool true;
     resp_status := VNum 200; resp_statusText := VStr "OK";
     resp_headers := VObj []; resp_text := text |}.

(** A stand-in for the parser that knows one document. *)
Definition sample_parse (text : string) : option value :=
  if text =? "{}" then Some (VObj []) else None.

(** The text [{"x":1}]. *)
Definition sample_body_text : string :=
  "{" ++ String dquote "x" ++ String dquote ":1}".

Definition sample_qs (v : value) : string := "a=1".

Definition lower_get_api : RestApiOptions :=
  {| options := [("method", VStr "get")];
     request_transform := None;
     response_transform := None |}.

(** A Bearer client whose token lives in the property [token]. *)
Definition bearer_instance : instance :=
  {| own_props := [("token", VStr "tok")];
     proto := RestClient [("baseUrl", VStr "http://h"); ("authType", VStr "Bearer")]
                (CredentialProperty AccessToken [] "token") |}.

(** A Basic client with both credential properties declared and set. *)
Definition basic_instance : instance :=
  {| own_props := [("user", VStr "u"); ("pass", VStr "p")];
     proto := RestClient [("baseUrl", VStr "http://h"); ("authType", VStr "Basic")]
                (CredentialProperty Password
                   (CredentialProperty Username [] "user") "pass") |}.

(** A Basic client that declares no credential property at all. *)
Definition basic_bare_instance : instance :=
  {| own_props := [];
     proto := RestClient [("baseUrl", VStr "http://h"); ("authType", VStr "Basic")] [] |}.

(** A Bearer client that declares no access-token property. *)
Definition bearer_bare_instance : instance :=
  {| own_props := [];
     proto := RestClient [("baseUrl", VStr "http://h"); ("authType", VStr "Bearer")] [] |}.

Definition digest_instance : instance :=
  {| own_props := [];
     proto := RestClient [("baseUrl", VStr "http://h"); ("authType", VStr "Digest")] [] |}.

(** A source overrides a value name by name. *)
Definition overridden_by (src : value) (name : string) (below : option value)
  : option value :=
  match source_prop src name with
  | Some v => Some v
  | None => below
  end.

Definition sample_client_options : obj :=
  [("baseUrl", VStr "http://h"); ("cache", VStr "reload");
   ("headers", VObj [("Accept", VStr "text/plain"); ("X-Team", VStr "a")])].

Definition sample_client_instance : instance :=
  {| own_props := []; proto := RestClient sample_client_options [] |}.

(** *** Registrations

    A registration is one application of one of the four decorators; its key
    is what a later registration must repeat to replace it. *)

Inductive registration : Type :=
| RegPathParam (methodName paramKey : string) (paramIdx : nat)
| RegQueryParams (methodName : string) (paramIdx : nat)
| RegRequestBody (methodName : string) (paramIdx : nat)
| RegCredential (c : credentialType) (propertyName : string).

Inductive registration_key : Type :=
| KeyPathParam (methodName paramKey : string)
| KeyQueryParams (methodName : string)
| KeyRequestBody (methodName : string)
| KeyCredential (c : credentialType).

Definition register (r : registration) (target : obj) : obj :=
  match r with
  | RegPathParam m k i => PathParam k target m i
  | RegQueryParams m i => QueryParams target m i
  | RegRequestBody m i => RequestBody target m i
  | RegCredential c p => CredentialProperty c target p
  end.

Definition key_of (r : registration) : registration_key :=
  match r with
  | RegPathParam m k _ => KeyPathParam m k
  | RegQueryParams m _ => KeyQueryParams m
  | RegRequestBody m _ => KeyRequestBody m
  | RegCredential c _ => KeyCredential c
  end.

Definition value_of (r : registration) : value :=
  match r with
  | RegPathParam _ _ i | RegQueryParams _ i | RegRequestBody _ i => VNum (Z.of_nat i)
  | RegCredential _ p => VStr p
  end.

Definition key_path (key : registration_key) : list string :=
  match key with
  | KeyPathParam m k => ["__decorators"; m; "@PathParam"; k]
  | KeyQueryParams m => ["__decorators"; m; "@QueryParams"]
  | KeyRequestBody m => ["__decorators"; m; "@RequestBody"]
  | KeyCredential c => ["__decorators"; "@CredentialProperty"; credentialType_name c]
  end.

(** What [get(target, path)] finds under a key. *)
Definition registered (target : obj) (key : registration_key) : value :=
  get_from (own target) (key_path key) VUndef.

(** Two paths part ways before either ends. *)
Fixpoint diverges (p q : list string) : bool :=
  match p, q with
  | a :: p', b :: q' => if a =? b then diverges p' q' else true
  | _, _ => false
  end.

Definition not_string (v : value) : bool :=
  match v with
  | VStr _ => false
  | _ => true
  end.

(** No string sits on the way to the end of [path]: a string would have
    properties of its own ([length], its characters) where the metadata store
    expects objects. *)
Fixpoint strings_clear (v : value) (path : list string) : bool :=
  match path with
  | [] => true
  | k :: r =>
      not_string v
      && match v with
         | VObj o => strings_clear (own o k) r
         | _ => true
         end
  end.

(** The prototypes the decorators produce: a class that carries no metadata
    yet, and whatever a registration makes of such a prototype. *)
Inductive decorated : obj -> Prop :=
| decorated_fresh (target : obj) :
    assoc "__decorators" target = None -> decorated target
| decorated_register (r : registration) (target : obj) :
    decorated target -> decorated (register r target).

Definition sample_target : obj :=
  register (RegCredential AccessToken "token")
    (register (RegQueryParams "getUser" 1)
       (register (RegPathParam "getUser" "id" 0) [])).

(** [sample_target] with [{id}] of [getUser] bound again, to argument 3. *)
Definition rebound_target : obj :=
  register (RegPathParam "getUser" "id" 3) sample_target.

(** A client whose method [search] takes its query parameters as first
    argument. *)
Definition search_instance : instance :=
  {| own_props := [];
     proto := RestClient [("baseUrl", VStr "http://h")]
                (QueryParams [] "search" 0) |}.

(** *** Path placeholders, in the words of the specification

    The token of a placeholder is [{name}]; filling a binding replaces every
    occurrence of its token, read from the left, by the string form of the
    bound argument, the text going in as it is. *)

Definition placeholder (name : string) : string := "{" ++ name ++ "}".

Fixpoint replace_every (token text : string) (skip : nat) (s : string) : string :=
  match s with
  | EmptyString => EmptyString
  | String c r =>
      match skip with
      | S k => replace_every token text k r
      | O =>
          if String.prefix token s
          then text ++ replace_every token text (String.length token - 1) r
          else String c (replace_every token text 0 r)
      end
  end.

Definition fill_placeholders (bindings : list (string * value)) (url : string)
  : string :=
  fold_left
    (fun u b => replace_every (placeholder (fst b)) (ToString (snd b)) 0 u)
    bindings url.


(** A placeholder name without regular-expression syntax. *)
Definition plain_key (k : string) : bool :=
  negb (quantifier_body k) && negb (string_existsb syntax_character k).

Definition dollar_free (s : string) : bool :=
  negb (string_existsb (fun c => Ascii.eqb c "$"%char) s).

(** A client whose method [getUser] binds [{id}] to its first argument. *)
Definition user_instance : instance :=
  {| own_props := [];
     proto := RestClient [("baseUrl", VStr "http://h")]
                (PathParam "id" [] "getUser" 0) |}.

(** The same with the placeholder called [1]. *)
Definition numbered_instance : instance :=
  {| own_props := [];
     proto := RestClient [("baseUrl", VStr "http://h")]
                (PathParam "1" [] "getUser" 0) |}.

(** A Bearer client with one method using every parameter decorator:
    [{id}] is argument 0, the query parameters argument 1, the body
    argument 2. *)
Definition full_instance : instance :=
  {| own_props := [("token", VStr "tok")];
     proto :=
       RestClient [("baseUrl", VStr "http://h"); ("authType", VStr "Bearer")]
         (CredentialProperty AccessToken
            (RequestBody
               (QueryParams (PathParam "id" [] "update" 0) "update" 1)
               "update" 2)
            "token") |}.

Definition put_api : RestApiOptions :=
  {| options := [("method", VStr "put"); ("headers", VObj [("X-Trace", VStr "1")])];
     request_transform := None;
     response_transform := None |}.


(** ** Further sample objects *)

(** A client class whose method [save] takes its body as second argument
    and its query parameters as first. *)
Definition save_target : obj :=
  RequestBody (QueryParams [] "save" 0) "save" 1.

Definition save_instance : instance :=
  {| own_props := [];
     proto := RestClient [("baseUrl", VStr "http://h")] save_target |}.

Definition post_api : RestApiOptions :=
  {| options := [("method", VStr "post")];
     request_transform := None;
     response_transform := None |}.


(** A Bearer client whose token property holds a number. *)
Definition numeric_token_instance : instance :=
  {| own_props := [("token", VNum 5)];
     proto := RestClient [("baseUrl", VStr "http://h"); ("authType", VStr "Bearer")]
                (CredentialProperty AccessToken [] "token") |}.

(** A Bearer client whose token property holds the empty string. *)
Definition empty_token_instance : instance :=
  {| own_props := [("token", VStr "")];
     proto := RestClient [("baseUrl", VStr "http://h"); ("authType", VStr "Bearer")]
                (CredentialProperty AccessToken [] "token") |}.

(** A client with no auth mode that declares a token all the same. *)
Definition no_auth_instance : instance :=
  {| own_props := [("token", VStr "tok")];
     proto := RestClient [("baseUrl", VStr "http://h")]
                (CredentialProperty AccessToken [] "token") |}.


(** A client configured with class-level transport defaults of its own. *)
Definition strict_client_instance : instance :=
  {| own_props := [];
     proto := RestClient [("baseUrl", VStr "http://h"); ("mode", VStr "same-origin");
                          ("cache", VStr "reload")] [] |}.

(** Call options that carry a [url] and a [redirect] of their own. *)
Definition redirecting_api : RestApiOptions :=
  {| options := [("url", VStr "http://elsewhere"); ("redirect", VStr "manual")];
     request_transform := None;
     response_transform := None |}.

(** An instance of a class that [RestClient] never configured. *)
Definition unconfigured_instance : instance :=
  {| own_props := []; proto := PathParam "id" [] "getUser" 0 |}.

Definition default_api : RestApiOptions :=
  {| options := []; request_transform := None; response_transform := None |}.

Definition sample_fetch (u : value) (opts : obj) : outcome Response :=
  Ok (sample_response "{}").


(** A client class whose method [find] binds [{kind}] to its first argument
    and [{id}] to its second. *)
Definition find_instance : instance :=
  {| own_props := [];
     proto := RestClient [("baseUrl", VStr "http://h")]
                (PathParam "id" (PathParam "kind" [] "find" 0) "find" 1) |}.




(** ** Where the plain model is the language

    The conventions above leave out parts of the language: letter case
    beyond ASCII, numbers that are not written in plain decimal, objects
    with a string conversion of their own, the members every object
    inherits, and arrays.  The predicates below say where the plain
    definitions agree with the language; the statements that depend on one
    of these parts carry them as hypotheses. *)

(** Every character is an ASCII one: [toUpperCase] and [toLowerCase] are
    then those of the language. *)
Definition ascii_only (s : string) : bool :=
  string_forallb (fun c => (nat_of_ascii c <? 128)%nat) s.

(** An integer that a number holds exactly and [ToString] writes in plain
    decimal. *)
Definition safe_integer (n : Z) : bool :=
  (Z.abs n <=? 9007199254740991)%Z.

(** A value whose string form is the one [ToString] gives: a number is a
    safe integer, and an object leaves [toString] and [valueOf] to
    [Object.prototype]. *)
Definition stringable (v : value) : bool :=
  match v with
  | VNum n => safe_integer n
  | VObj o =>
      match assoc "toString" o, assoc "valueOf" o with
      | None, None => true
      | _, _ => false
      end
  | _ => true
  end.

(** The decimal form of a natural number: what lodash takes for an index
    when it chooses between a fresh array and a fresh object. *)
Definition numeral (k : string) : bool :=
  match NilZero.uint_of_string k with
  | Some d => NilZero.string_of_uint (N.to_uint (N.of_uint d)) =? k
  | None => false
  end.

(** The names every object finds on [Object.prototype]. *)
Definition inherited_names : list string :=
  ["constructor"; "__defineGetter__"; "__defineSetter__"; "hasOwnProperty";
   "__lookupGetter__"; "__lookupSetter__"; "isPrototypeOf";
   "propertyIsEnumerable"; "toString"; "valueOf"; "__proto__";
   "toLocaleString"].

Definition inherited_name (k : string) : bool :=
  existsb (String.eqb k) inherited_names.

(** A name under which the metadata store is a tree of plain objects: not a
    number (no array is made for it), not [length], and not a name that
    every object inherits. *)
Definition ordinary_name (k : string) : bool :=
  negb (numeral k) && negb (k =? "length") && negb (inherited_name k).

Definition ordinary_registration (r : registration) : bool :=
  match r with
  | RegPathParam m k _ => ordinary_name m && ordinary_name k
  | RegQueryParams m _ | RegRequestBody m _ => ordinary_name m
  | RegCredential _ _ => true
  end.

(** The prototypes the decorators produce when every method and every
    placeholder has an ordinary name. *)
Inductive decorated_plainly : obj -> Prop :=
| plainly_fresh (target : obj) :
    assoc "__decorators" target = None -> decorated_plainly target
| plainly_register (r : registration) (target : obj) :
    ordinary_registration r = true ->
    decorated_plainly target -> decorated_plainly (register r target).

Definition ordinary_key (key : registration_key) : bool :=
  match key with
  | KeyPathParam m k => ordinary_name m && ordinary_name k
  | KeyQueryParams m | KeyRequestBody m => ordinary_name m
  | KeyCredential _ => true
  end.

(** No string, number or boolean sits on the way to the end of [path]:
    every step is made in an object, or stops at [undefined] or [null]. *)
Fixpoint containers_only (v : value) (path : list string) : bool :=
  match path with
  | [] => true
  | k :: r =>
      match v with
      | VObj o => containers_only (own o k) r
      | VUndef | VNull => true
      | _ => false
      end
  end.

(** The text of an Accept header as the transforms take it: a header that
    is missing, [null], [false], [0] or empty counts as the empty text, and
    any other header that is not a string has no text. *)
Definition accept_text (accept : value) : option string :=
  match accept with
  | VStr a => Some a
  | VUndef | VNull | VBool false => Some ""
  | VNum n => if (n =? 0)%Z then Some "" else None
  | _ => None
  end.

(** The method a call is configured with: the one of the call options, and
    [GET] when they name none. *)
Definition configured_method (api : RestApiOptions) : option string :=
  match own (options api) "method" with
  | VUndef => Some "GET"
  | VStr m => Some m
  | _ => None
  end.

(** The text that goes in for a placeholder bound to [position]: the string
    form of the argument there, and [undefined] where the call has no such
    argument. *)
Definition argument_text (inputs : list value) (position : nat) : string :=
  if (position <? List.length inputs)%nat
  then ToString (nth position inputs VUndef)
  else "undefined".

(** ** The metadata store with the containers lodash makes

    [lodash.set] makes a missing container an array when the key that
    follows is index-like, and it reads a container through its prototype
    chain.  The store below keeps arrays apart from objects: an array has a
    length, grows when an index is written, and is cut when its [length] is
    written.  Reading a name that a container inherits gives a function or
    an object shared by every object of the program; the store does not
    follow it. *)

Module Arrays.

#[warnings="-register-all"]
Inductive node : Type :=
| NUndef
| NNull
| NBool (b : bool)
| NNum (n : Z)
| NStr (s : string)
| NObj (props : list (string * node))
| NArr (len : N) (props : list (string * node)).

Fixpoint lookup (k : string) (o : list (string * node)) : option node :=
  match o with
  | [] => None
  | (k', v) :: r => if k' =? k then Some v else lookup k r
  end.

Fixpoint put (o : list (string * node)) (k : string) (v : node)
  : list (string * node) :=
  match o with
  | [] => [(k, v)]
  | (k', v') :: r => if k' =? k then (k, v) :: r else (k', v') :: put r k v
  end.

(** lodash's [isIndex] on a key of a path. *)
Definition isIndex (k : string) : bool :=
  match NilZero.uint_of_string k with
  | Some d =>
      (NilZero.string_of_uint (N.to_uint (N.of_uint d)) =? k)
      && (N.of_uint d <? 9007199254740991)%N
  | None => false
  end.

Definition isObject (v : node) : bool :=
  match v with
  | NObj _ | NArr _ _ => true
  | _ => false
  end.

(** [container[k]] on an object or an array. *)
Definition read (c : node) (k : string) : outcome node :=
  match c with
  | NObj o =>
      match lookup k o with
      | Some v => Ok v
      | None => if inherited_name k then OutOfModel else Ok NUndef
      end
  | NArr len o =>
      if k =? "length" then Ok (NNum (Z.of_N len))
      else
        match lookup k o with
        | Some v => Ok v
        | None => if is_index_name k then Ok NUndef else OutOfModel
        end
  | _ => OutOfModel
  end.

(** The entries of an array that a new length keeps. *)
Definition below (n : N) (e : string * node) : bool :=
  match array_index (fst e) with
  | Some i => (i <? n)%N
  | None => true
  end.

(** [container[k] = v] on an object or an array. *)
Definition write (c : node) (k : string) (v : node) : outcome node :=
  match c with
  | NObj o => if k =? "__proto__" then OutOfModel else Ok (NObj (put o k v))
  | NArr len o =>
      match array_index k with
      | Some i => Ok (NArr (N.max len (i + 1)) (put o k v))
      | None =>
          if k =? "length" then
            match v with
            | NNum n =>
                if (0 <=? n)%Z && (n <? 4294967296)%Z
                then Ok (NArr (Z.to_N n) (filter (below (Z.to_N n)) o))
                else OutOfModel
            | _ => OutOfModel
            end
          else if k =? "__proto__" then OutOfModel
          else Ok (NArr len (put o k v))
      end
  | _ => OutOfModel
  end.

Fixpoint baseSet (c : node) (path : list string) (v : node) : outcome node :=
  match path with
  | [] => Ok c
  | k :: r =>
      match r with
      | [] => write c k v
      | k' :: _ =>
          objValue <- read c k ;;
          let newValue :=
            if isObject objValue then objValue
            else if isIndex k' then NArr 0 [] else NObj [] in
          nested <- baseSet newValue r v ;;
          write c k nested
      end
  end.

Definition set (target : node) (path : list string) (v : node) : outcome node :=
  if isObject target then baseSet target path v else Ok target.

Fixpoint baseGet (c : node) (path : list string) : outcome node :=
  match path with
  | [] => Ok c
  | k :: r =>
      match c with
      | NUndef | NNull => Ok NUndef
      | _ => x <- read c k ;; baseGet x r
      end
  end.

(** [Object.keys] of an object or an array. *)
Definition keys (c : node) : list string :=
  match c with
  | NObj o | NArr _ o => order_keys (map fst o)
  | _ => []
  end.

Definition PathParam (paramKey : string) (target : node) (methodName : string)
    (paramIdx : nat) : outcome node :=
  set target ["__decorators"; methodName; "@PathParam"; paramKey]
      (NNum (Z.of_nat paramIdx)).

Definition QueryParams (target : node) (methodName : string) (paramIdx : nat)
  : outcome node :=
  set target ["__decorators"; methodName; "@QueryParams"] (NNum (Z.of_nat paramIdx)).

Definition RequestBody (target : node) (methodName : string) (paramIdx : nat)
  : outcome node :=
  set target ["__decorators"; methodName; "@RequestBody"] (NNum (Z.of_nat paramIdx)).

Definition CredentialProperty (c : credentialType) (target : node)
    (propertyName : string) : outcome node :=
  set target ["__decorators"; "@CredentialProperty"; credentialType_name c]
      (NStr propertyName).

Definition register (r : registration) (target : node) : outcome node :=
  match r with
  | RegPathParam m k i => PathParam k target m i
  | RegQueryParams m i => QueryParams target m i
  | RegRequestBody m i => RequestBody target m i
  | RegCredential c p => CredentialProperty c target p
  end.

(** A plain value as a node of the store. *)
Fixpoint embed (v : value) : node :=
  match v with
  | VUndef => NUndef
  | VNull => NNull
  | VBool b => NBool b
  | VNum n => NNum n
  | VStr s => NStr s
  | VObj o =>
      NObj ((fix entries (l : obj) : list (string * node) :=
               match l with
               | [] => []
               | (k, x) :: r => (k, embed x) :: entries r
               end) o)
  end.

Definition embed_entries (o : obj) : list (string * node) :=
  map (fun e => (fst e, embed (snd e))) o.

End Arrays.

(** ** Sample objects for the statements on headers, methods and arguments *)


(** Call options that name a method in lower case besides a [url] and a
    [redirect] of their own. *)
Definition redirecting_put_api : RestApiOptions :=
  {| options := [("method", VStr "put"); ("url", VStr "http://elsewhere");
                 ("redirect", VStr "manual")];
     request_transform := None;
     response_transform := None |}.

(** A class with a method [m] whose first parameter is bound to the
    placeholder [length] and whose second to the placeholder [0]; the
    decorator of the second parameter runs first. *)
Definition indexed_then_length : outcome Arrays.node :=
  t <- Arrays.PathParam "0" (Arrays.NObj []) "m" 1 ;;
  Arrays.PathParam "length" t "m" 0.

(** * Properties *)

(** ** Objects *)

Lemma assoc_set_prop_same (o : obj) (k : string) (v : value) :
  assoc k (set_prop o k v) = Some v.
Proof.
  induction o as [|[k' v'] r IH]; simpl.
  - now rewrite String.eqb_refl.
  - destruct (k' =? k) eqn:E; simpl.
    + now rewrite String.eqb_refl.
    + now rewrite E.
Qed.

Lemma assoc_set_prop_other (o : obj) (k k' : string) (v : value) :
  k' <> k -> assoc k' (set_prop o k v) = assoc k' o.
Proof.
  intros Hne.
  induction o as [|[k0 v0] r IH]; simpl.
  - destruct (String.eqb_spec k k'); congruence.
  - destruct (String.eqb_spec k0 k) as [->|Hk0]; simpl.
    + destruct (String.eqb_spec k k'); congruence.
    + destruct (String.eqb_spec k0 k'); auto.
Qed.

Lemma assoc_set_prop (o : obj) (k k' : string) (v : value) :
  assoc k' (set_prop o k v) = if k =? k' then Some v else assoc k' o.
Proof.
  destruct (String.eqb_spec k k') as [<-|Hne].
  - apply assoc_set_prop_same.
  - apply assoc_set_prop_other; congruence.
Qed.

Lemma own_set_prop_same (o : obj) (k : string) (v : value) :
  own (set_prop o k v) k = v.
Proof. unfold own. now rewrite assoc_set_prop_same. Qed.

Lemma own_set_prop_other (o : obj) (k k' : string) (v : value) :
  k' <> k -> own (set_prop o k v) k' = own o k'.
Proof. intros H. unfold own. now rewrite assoc_set_prop_other. Qed.

Lemma assoc_In (k : string) (o : obj) :
  In k (map fst o) <-> assoc k o <> None.
Proof.
  induction o as [|[k' v'] r IH]; simpl.
  - split; [tauto | congruence].
  - destruct (String.eqb_spec k' k) as [->|Hne].
    + split; [congruence | auto].
    + rewrite <- IH. split; [intros [?|?]; [congruence|auto] | auto].
Qed.

Lemma assoc_remove_key (k k' : string) (o : obj) :
  assoc k' (remove_key k o) = if k =? k' then None else assoc k' o.
Proof.
  induction o as [|[k0 v0] r IH]; simpl.
  - now destruct (k =? k').
  - destruct (String.eqb_spec k0 k) as [->|Hk0]; simpl.
    + rewrite IH. destruct (String.eqb_spec k k'); auto.
    + rewrite IH.
      destruct (String.eqb_spec k0 k') as [->|]; auto.
      destruct (String.eqb_spec k k'); congruence.
Qed.

Lemma assoc_rest_without (ks : list string) (k : string) (o : obj) :
  assoc k (rest_without ks o) = if existsb (String.eqb k) ks then None else assoc k o.
Proof.
  unfold rest_without. revert o.
  induction ks as [|k0 r IH]; intros o; simpl; auto.
  rewrite IH, assoc_remove_key.
  rewrite (String.eqb_sym k k0).
  destruct (k0 =? k); simpl.
  - now destruct (existsb (String.eqb k) r).
  - reflexivity.
Qed.

(** ** Own keys: the ordering permutes the names *)

Lemma In_insert_index (e x : N * string) (l : list (N * string)) :
  In e (insert_index x l) <-> e = x \/ In e l.
Proof.
  induction l as [|y r IH]; simpl.
  - intuition congruence.
  - destruct (fst x <=? fst y)%N; simpl; rewrite ?IH; intuition congruence.
Qed.

Lemma In_sort_indices (e : N * string) (l : list (N * string)) :
  In e (sort_indices l) <-> In e l.
Proof.
  unfold sort_indices.
  induction l as [|y r IH]; simpl; [tauto|].
  rewrite In_insert_index, IH. intuition congruence.
Qed.

Lemma In_index_names (n : N) (k : string) (ks : list string) :
  In (n, k) (index_names ks) <-> In k ks /\ array_index k = Some n.
Proof.
  induction ks as [|k0 r IH]; simpl; [tauto|].
  destruct (array_index k0) as [m|] eqn:E; simpl; rewrite IH.
  - split.
    + intros [H|[H1 H2]]; [inversion H; subst; auto | auto].
    + intros [[->|H1] H2]; [left; congruence | auto].
  - split.
    + intros [H1 H2]; auto.
    + intros [[->|H1] H2]; [congruence | auto].
Qed.

Lemma In_order_keys (k : string) (ks : list string) :
  In k (order_keys ks) <-> In k ks.
Proof.
  unfold order_keys. rewrite in_app_iff, in_map_iff, filter_In.
  unfold is_index_name. split.
  - intros [[[n k'] [Hk Hin]]|[Hin _]]; auto.
    simpl in Hk. subst k'.
    apply In_sort_indices, In_index_names in Hin. tauto.
  - intros Hin. destruct (array_index k) as [n|] eqn:E.
    + left. exists (n, k). split; auto.
      apply In_sort_indices, In_index_names. auto.
    + right. auto.
Qed.

Lemma In_own_keys (k : string) (o : obj) :
  In k (own_keys o) <-> assoc k o <> None.
Proof. unfold own_keys. now rewrite In_order_keys, assoc_In. Qed.

(** ** [objectAssign]: a source overrides the target name by name *)

Lemma assoc_fold_set_prop (f : string -> value) (ks : list string)
    (k : string) (o : obj) :
  assoc k (fold_left (fun acc kv => set_prop acc (fst kv) (snd kv))
                     (map (fun x => (x, f x)) ks) o)
  = if existsb (String.eqb k) ks then Some (f k) else assoc k o.
Proof.
  revert o. induction ks as [|k0 r IH]; intros o; simpl; auto.
  rewrite IH, assoc_set_prop. rewrite (String.eqb_sym k k0).
  destruct (String.eqb_spec k0 k) as [->|Hne]; simpl.
  - now destruct (existsb (String.eqb k) r).
  - reflexivity.
Qed.

Lemma assoc_fold_set_prop_entries (es : obj) (k : string) (o : obj) :
  NoDup (map fst es) ->
  assoc k (fold_left (fun acc kv => set_prop acc (fst kv) (snd kv)) es o)
  = match assoc k es with Some v => Some v | None => assoc k o end.
Proof.
  revert o. induction es as [|[k0 v0] r IH]; intros o Hnd; simpl; auto.
  inversion Hnd as [|? ? Hnotin Hnd']; subst.
  rewrite IH by assumption. rewrite assoc_set_prop.
  destruct (String.eqb_spec k0 k) as [->|Hne].
  - destruct (assoc k r) eqn:E; auto.
    exfalso. apply Hnotin. apply assoc_In. congruence.
  - reflexivity.
Qed.

Lemma existsb_eqb_In (k : string) (ks : list string) :
  existsb (String.eqb k) ks = true <-> In k ks.
Proof.
  rewrite existsb_exists. split.
  - intros [x [Hin Hx]]. apply String.eqb_eq in Hx. now subst.
  - intros Hin. exists k. split; auto. apply String.eqb_refl.
Qed.

Lemma assoc_map_keys (f : string -> value) (ks : list string) (k : string) :
  assoc k (map (fun x => (x, f x)) ks)
  = if existsb (String.eqb k) ks then Some (f k) else None.
Proof.
  induction ks as [|k0 r IH]; simpl; auto.
  rewrite (String.eqb_sym k k0).
  destruct (String.eqb_spec k0 k) as [->|Hne]; simpl; auto.
Qed.

Lemma source_prop_obj (o : obj) (k : string) :
  source_prop (VObj o) k = assoc k o.
Proof.
  unfold source_prop. simpl. rewrite assoc_map_keys.
  destruct (existsb (String.eqb k) (own_keys o)) eqn:E.
  - apply existsb_eqb_In, In_own_keys in E.
    unfold own. destruct (assoc k o); congruence.
  - destruct (assoc k o) eqn:A; auto.
    assert (In k (own_keys o)) as Hin by (apply In_own_keys; congruence).
    apply existsb_eqb_In in Hin. congruence.
Qed.

Lemma index_name_inj (i j : nat) : index_name i = index_name j -> i = j.
Proof.
  unfold index_name. intros H.
  assert (Hnil : forall n, Nat.to_uint n <> Decimal.Nil).
  { intros n Hn. pose proof (DecimalNat.Unsigned.of_to n) as E.
    rewrite Hn in E. simpl in E. subst n. discriminate. }
  pose proof (NilZero.usu _ (Hnil i)) as Ei.
  pose proof (NilZero.usu _ (Hnil j)) as Ej.
  rewrite H in Ei. rewrite Ei in Ej. inversion Ej as [E].
  rewrite <- (DecimalNat.Unsigned.of_to i), <- (DecimalNat.Unsigned.of_to j).
  now rewrite E.
Qed.

Lemma string_chars_keys (s : string) (i : nat) (k : string) :
  In k (map fst (string_chars s i)) -> exists j, (i <= j)%nat /\ k = index_name j.
Proof.
  revert i. induction s as [|c r IH]; intros i; simpl; [tauto|].
  intros [H|H].
  - exists i. split; [lia | now subst].
  - destruct (IH _ H) as [j [Hj ->]]. exists j. split; [lia | reflexivity].
Qed.

Lemma string_chars_NoDup (s : string) (i : nat) :
  NoDup (map fst (string_chars s i)).
Proof.
  revert i. induction s as [|c r IH]; intros i; simpl; constructor; auto.
  intros Hin. apply string_chars_keys in Hin as [j [Hj E]].
  apply index_name_inj in E. lia.
Qed.

Lemma assoc_assign_one (target : obj) (src : value) (k : string) :
  assoc k (assign_one target src)
  = match source_prop src k with
    | Some v => Some v
    | None => assoc k target
    end.
Proof.
  unfold assign_one, source_prop.
  destruct src as [| | b | n | s | o]; simpl; auto.
  - apply assoc_fold_set_prop_entries, string_chars_NoDup.
  - rewrite assoc_fold_set_prop, assoc_map_keys.
    now destruct (existsb (String.eqb k) (own_keys o)).
Qed.

(** ** Array indices and the argument array *)

Lemma array_index_of_N (n : N) :
  (n <= 4294967294)%N ->
  array_index (NilZero.string_of_uint (N.to_uint n)) = Some n.
Proof.
  intros Hn. unfold array_index.
  assert (Hnil : N.to_uint n <> Decimal.Nil).
  { intros E. pose proof (DecimalN.Unsigned.of_to n) as E'.
    rewrite E in E'. simpl in E'. subst n.
    unfold N.to_uint in E. discriminate. }
  rewrite (NilZero.usu _ Hnil).
  cbv zeta. rewrite DecimalN.Unsigned.of_to, String.eqb_refl.
  apply N.leb_le in Hn. now rewrite Hn.
Qed.

Lemma ToString_nat (i : nat) :
  ToString (VNum (Z.of_nat i)) = NilZero.string_of_uint (N.to_uint (N.of_nat i)).
Proof.
  simpl. destruct i as [|i].
  - reflexivity.
  - simpl. reflexivity.
Qed.

(** [inputs[i]] for a parameter index [i]. *)
Lemma element_nat (inputs : list value) (i : nat) :
  (N.of_nat i <= 4294967294)%N ->
  element inputs (VNum (Z.of_nat i)) = nth i inputs VUndef.
Proof.
  intros Hi. unfold element. rewrite ToString_nat, array_index_of_N by assumption.
  now rewrite Nat2N.id.
Qed.

(** ** Strings: [indexOf] and letter case *)

Lemma indexOf_from_occurs (needle s : string) (i : Z) :
  (0 <= i)%Z -> (0 <=? indexOf_from needle s i)%Z = occurs needle s.
Proof.
  revert i. induction s as [|c r IH]; intros i Hi; cbn [indexOf_from occurs].
  - destruct (String.prefix needle ""); cbn [orb]; [now apply Z.leb_le | reflexivity].
  - destruct (String.prefix needle (String c r)); cbn [orb].
    + now apply Z.leb_le.
    + apply IH. lia.
Qed.

Lemma indexOf_occurs (s needle : string) :
  (0 <=? indexOf s needle)%Z = occurs needle s.
Proof. unfold indexOf. apply indexOf_from_occurs. lia. Qed.

Lemma prefix_map_string (f : ascii -> ascii) (p s : string) :
  String.prefix p s = true ->
  String.prefix (map_string f p) (map_string f s) = true.
Proof.
  revert s. induction p as [|c p IH]; intros [|d s]; simpl; auto.
  destruct (ascii_dec c d) as [->|Hne]; [|discriminate].
  intros H. destruct (ascii_dec (f d) (f d)); [auto | congruence].
Qed.

Lemma occurs_map_string (f : ascii -> ascii) (needle s : string) :
  occurs needle s = true -> occurs (map_string f needle) (map_string f s) = true.
Proof.
  induction s as [|c r IH]; cbn [occurs map_string]; intros H.
  - rewrite orb_false_r in *. now apply (prefix_map_string f needle "").
  - apply orb_true_iff in H as [H|H].
    + apply (prefix_map_string f) in H. cbn [map_string] in H. now rewrite H.
    + rewrite (IH H). apply orb_true_r.
Qed.

(** A header that contains [application/json] as written indicates JSON. *)
Lemma occurs_indicates_json (accept : string) :
  occurs "application/json" accept = true -> indicates_json accept = true.
Proof.
  intros H. unfold indicates_json, toLowerCase.
  now apply (occurs_map_string lower_char) in H.
Qed.

Lemma _isOfTypeJson_string (a : string) :
  _isOfTypeJson (VStr a) = Ok (indicates_json a).
Proof.
  unfold _isOfTypeJson, js_or, indicates_json. simpl.
  destruct (String.eqb_spec a "") as [->|Hne]; simpl.
  - reflexivity.
  - now rewrite indexOf_occurs.
Qed.

Lemma _isOfTypeJson_absent : _isOfTypeJson VUndef = Ok false.
Proof. reflexivity. Qed.

Lemma value_eq_str_true (v : value) (s : string) :
  value_eq_str v s = true <-> v = VStr s.
Proof.
  destruct v; simpl; try (split; [discriminate | congruence]).
  rewrite String.eqb_eq. split; congruence.
Qed.

Lemma value_eq_str_false (v : value) (s : string) :
  v <> VStr s -> value_eq_str v s = false.
Proof.
  intros H. destruct (value_eq_str v s) eqn:E; auto.
  apply value_eq_str_true in E. contradiction.
Qed.

Lemma objectAssign_body (fo : obj) (b : value) :
  objectAssign fo [VObj [("body", b)]] = set_prop fo "body" b.
Proof. reflexivity. Qed.

Lemma accept_header_obj (fo h : obj) :
  own fo "headers" = VObj h -> accept_header fo = Ok (own h "Accept").
Proof. unfold accept_header. now intros ->. Qed.

(** ** The default request transform *)

Lemma _defaultRequestTransform_GET (fo : obj) (body : value) (inst : instance) :
  own fo "method" = VStr "GET" ->
  _defaultRequestTransform fo body inst = Ok (set_prop fo "body" VUndef).
Proof.
  intros Hm. unfold _defaultRequestTransform. rewrite Hm. reflexivity.
Qed.

(** ** The default response transform *)



(** ** The HTTP method *)

Lemma objectAssign_one (target : obj) (src : value) :
  objectAssign target [src] = assign_one target src.
Proof. reflexivity. Qed.

Lemma own_assign_rest (base : obj) (ks : list string) (o : obj) (k : string) :
  In k ks ->
  own (objectAssign base [VObj (rest_without ks o)]) k = own base k.
Proof.
  intros Hin. unfold own.
  rewrite objectAssign_one, assoc_assign_one, source_prop_obj, assoc_rest_without.
  apply existsb_eqb_In in Hin. now rewrite Hin.
Qed.

(** ** The Authorization header *)

Lemma base64_bytes_nonempty (l : list nat) :
  l <> [] -> base64_bytes l <> "".
Proof.
  destruct l as [|a [|b [|c r]]]; simpl; intros H; congruence.
Qed.

Lemma _getBase64FromString_colon (u p : string) :
  _getBase64FromString (u ++ ":" ++ p) <> "".
Proof.
  unfold _getBase64FromString. apply base64_bytes_nonempty.
  destruct u; simpl; discriminate.
Qed.

Lemma headersToUse_with_credential (headers : value) (inst : instance) (h : obj) :
  RestApi_mergedHeaders headers inst = Ok h ->
  truthy (inst_prop inst "authType") = true ->
  truthy (_getCredential inst) = true ->
  RestApi_headersToUse headers inst
  = Ok (set_prop h "Authorization"
          (VStr (ToString (inst_prop inst "authType") ++ " "
                 ++ ToString (_getCredential inst)))).
Proof.
  intros Hh Ha Hc. unfold RestApi_headersToUse.
  rewrite Hh. cbn [bind]. now rewrite Ha, Hc.
Qed.

Lemma headersToUse_without_credential (headers : value) (inst : instance) (h : obj) :
  RestApi_mergedHeaders headers inst = Ok h ->
  truthy (_getCredential inst) = false ->
  RestApi_headersToUse headers inst = Ok h.
Proof.
  intros Hh Hc. unfold RestApi_headersToUse.
  rewrite Hh. cbn [bind]. rewrite Hc. now rewrite andb_false_r.
Qed.

Lemma truthy_VStr (s : string) : s <> "" -> truthy (VStr s) = true.
Proof.
  intros H. cbn [truthy]. destruct (String.eqb_spec s ""); [contradiction | reflexivity].
Qed.

Lemma _getCredential_Bearer (inst : instance) :
  inst_prop inst "authType" = VStr "Bearer" ->
  _getCredential inst = credential_property inst AccessToken.
Proof. intros Ha. unfold _getCredential. rewrite Ha. reflexivity. Qed.

Lemma _getCredential_Basic (inst : instance) :
  inst_prop inst "authType" = VStr "Basic" ->
  _getCredential inst
  = VStr (_getBase64FromString
            (ToString (credential_property inst Username) ++ ":"
             ++ ToString (credential_property inst Password))).
Proof. intros Ha. unfold _getCredential. rewrite Ha. reflexivity. Qed.

Lemma _getCredential_other (inst : instance) (a : string) :
  inst_prop inst "authType" = VStr a ->
  a <> "Bearer" -> a <> "Basic" ->
  _getCredential inst = VUndef.
Proof.
  intros Ha H1 H2. unfold _getCredential. rewrite Ha.
  unfold AuthTypeEnum.Bearer, AuthTypeEnum.Basic. cbn [value_eq_str].
  destruct (String.eqb_spec a "Bearer"); [contradiction|].
  destruct (String.eqb_spec a "Basic"); [contradiction|].
  reflexivity.
Qed.

Lemma credential_property_declared (inst : instance) (c : credentialType)
    (property : string) :
  get inst ["__decorators"; "@CredentialProperty"; credentialType_name c] VUndef
  = VStr property ->
  credential_property inst c = inst_prop inst property.
Proof. intros H. unfold credential_property. now rewrite H. Qed.

Lemma credential_property_undeclared (inst : instance) (c : credentialType) :
  get inst ["__decorators"; "@CredentialProperty"; credentialType_name c] VUndef
  = VUndef ->
  credential_property inst c = inst_prop inst "undefined".
Proof. intros H. unfold credential_property. now rewrite H. Qed.

(** C5: with an auth mode and a credential the Authorization header is the
    auth type, a space and the credential: [Bearer] followed by the value of
    the declared access-token property, and [Basic] followed by the base64
    form of [username:password] read from the two declared properties. *)
Theorem authorization_header (headers : value) (inst : instance) (h : obj) :
  RestApi_mergedHeaders headers inst = Ok h ->
  (truthy (inst_prop inst "authType") = true ->
   truthy (_getCredential inst) = true ->
   exists h',
     RestApi_headersToUse headers inst = Ok h'
     /\ own h' "Authorization"
        = VStr (ToString (inst_prop inst "authType") ++ " "
                ++ ToString (_getCredential inst)))
  /\
  (forall property tok,
     inst_prop inst "authType" = VStr "Bearer" ->
     get inst ["__decorators"; "@CredentialProperty"; "AccessToken"] VUndef
     = VStr property ->
     inst_prop inst property = VStr tok ->
     tok <> "" ->
     exists h',
       RestApi_headersToUse headers inst = Ok h'
       /\ own h' "Authorization" = VStr ("Bearer " ++ tok))
  /\
  (forall userProperty passProperty u p,
     inst_prop inst "authType" = VStr "Basic" ->
     get inst ["__decorators"; "@CredentialProperty"; "Username"] VUndef
     = VStr userProperty ->
     get inst ["__decorators"; "@CredentialProperty"; "Password"] VUndef
     = VStr passProperty ->
     inst_prop inst userProperty = VStr u ->
     inst_prop inst passProperty = VStr p ->
     exists h',
       RestApi_headersToUse headers inst = Ok h'
       /\ own h' "Authorization"
          = VStr ("Basic " ++ _getBase64FromString (u ++ ":" ++ p))).
Proof.
  intros Hh. split; [| split].
  - intros Ha Hc. eexists. split.
    + exact (headersToUse_with_credential _ _ _ Hh Ha Hc).
    + apply own_set_prop_same.
  - intros property tok Ha Hg Hp Htok.
    assert (Hc : _getCredential inst = VStr tok).
    { rewrite (_getCredential_Bearer _ Ha).
      now rewrite (credential_property_declared inst AccessToken property Hg). }
    eexists. split.
    + apply headersToUse_with_credential; [exact Hh | now rewrite Ha |].
      rewrite Hc. now apply truthy_VStr.
    + rewrite own_set_prop_same, Ha, Hc. reflexivity.
  - intros userProperty passProperty u p Ha Hgu Hgp Hu Hp.
    assert (Hc : _getCredential inst
                 = VStr (_getBase64FromString (u ++ ":" ++ p))).
    { rewrite (_getCredential_Basic _ Ha).
      rewrite (credential_property_declared inst Username userProperty Hgu).
      rewrite (credential_property_declared inst Password passProperty Hgp).
      now rewrite Hu, Hp. }
    eexists. split.
    + apply headersToUse_with_credential; [exact Hh | now rewrite Ha |].
      rewrite Hc. apply truthy_VStr, _getBase64FromString_colon.
    + rewrite own_set_prop_same, Ha, Hc. reflexivity.
Qed.

Lemma authorization_header_witness :
  (exists h',
     RestApi_headersToUse (VObj []) bearer_instance = Ok h'
     /\ own h' "Authorization" = VStr "Bearer tok")
  /\
  (exists h',
     RestApi_headersToUse (VObj []) basic_instance = Ok h'
     /\ own h' "Authorization" = VStr "Basic dTpw").
Proof.
  split.
  - apply (proj1 (proj2 (authorization_header (VObj []) bearer_instance _ eq_refl))
             "token" "tok");
      [reflexivity | reflexivity | reflexivity | discriminate].
  - apply (proj2 (proj2 (authorization_header (VObj []) basic_instance _ eq_refl))
             "user" "pass" "u" "p");
      reflexivity.
Defined.

(** ** The client configurator and the header merge *)

Lemma assoc_objectAssign_one (target : obj) (src : value) (k : string) :
  assoc k (objectAssign target [src]) = overridden_by src k (assoc k target).
Proof. rewrite objectAssign_one. apply assoc_assign_one. Qed.

Lemma assoc_objectAssign_two (target : obj) (s1 s2 : value) (k : string) :
  assoc k (objectAssign target [s1; s2])
  = overridden_by s2 k (overridden_by s1 k (assoc k target)).
Proof.
  unfold objectAssign. cbn [fold_left].
  now rewrite !assoc_assign_one.
Qed.

(** The caller-supplied defaults: [restOptions] without [baseUrl] and
    [authType]. *)
Lemma assoc_caller_defaults (restOptions : obj) (k : string) :
  k <> "baseUrl" -> k <> "authType" ->
  assoc k (rest_without ["baseUrl"; "authType"] restOptions) = assoc k restOptions.
Proof.
  intros H1 H2. rewrite assoc_rest_without. cbn [existsb].
  destruct (String.eqb_spec k "baseUrl"); [contradiction|].
  destruct (String.eqb_spec k "authType"); [contradiction|].
  reflexivity.
Qed.

Lemma assoc_merged_configs (restOptions : obj) (k : string) :
  assoc k (objectAssign builtin_configs
             [VObj (rest_without ["baseUrl"; "authType"] restOptions)])
  = match assoc k (rest_without ["baseUrl"; "authType"] restOptions) with
    | Some v => Some v
    | None => assoc k builtin_configs
    end.
Proof.
  rewrite assoc_objectAssign_one. unfold overridden_by.
  now rewrite source_prop_obj.
Qed.

Lemma class_headers_source (restOptions : obj) (name : string) :
  source_prop
    (own (objectAssign builtin_configs
            [VObj (rest_without ["baseUrl"; "authType"] restOptions)]) "headers")
    name
  = source_prop (own restOptions "headers") name.
Proof.
  unfold own at 1. rewrite assoc_merged_configs.
  rewrite assoc_caller_defaults by discriminate.
  unfold own. destruct (assoc "headers" restOptions); reflexivity.
Qed.

Lemma defaultConfigsToUse_headers (restOptions : obj) :
  exists hs,
    own (defaultConfigsToUse restOptions) "headers" = VObj hs
    /\ forall name,
         assoc name hs
         = overridden_by (own restOptions "headers") name
             (assoc name builtin_headers).
Proof.
  unfold defaultConfigsToUse. eexists. split.
  - apply own_set_prop_same.
  - intros name. rewrite assoc_objectAssign_one. unfold overridden_by.
    now rewrite class_headers_source.
Qed.

Lemma defaultConfigsToUse_other (restOptions : obj) (k : string) :
  k <> "headers" ->
  assoc k (defaultConfigsToUse restOptions)
  = match assoc k (rest_without ["baseUrl"; "authType"] restOptions) with
    | Some v => Some v
    | None => assoc k builtin_configs
    end.
Proof.
  intros Hk. unfold defaultConfigsToUse.
  rewrite assoc_set_prop_other by assumption.
  apply assoc_merged_configs.
Qed.

Lemma RestClient_defaultConfigs (restOptions target : obj) :
  own (RestClient restOptions target) "defaultConfigs"
  = VObj (defaultConfigsToUse restOptions).
Proof.
  unfold RestClient.
  rewrite !own_set_prop_other by discriminate.
  apply own_set_prop_same.
Qed.

Lemma RestClient_baseUrl (restOptions target : obj) :
  own (RestClient restOptions target) "baseUrl" = own restOptions "baseUrl".
Proof.
  unfold RestClient.
  rewrite own_set_prop_other by discriminate.
  apply own_set_prop_same.
Qed.

Lemma RestClient_authType (restOptions target : obj) :
  own (RestClient restOptions target) "authType"
  = js_or (own restOptions "authType") (VStr "").
Proof. unfold RestClient. apply own_set_prop_same. Qed.

Lemma inst_prop_inherited (own_ps prototype : obj) (k : string) :
  assoc k own_ps = None ->
  inst_prop {| own_props := own_ps; proto := prototype |} k = own prototype k.
Proof. intros H. unfold inst_prop. cbn [own_props proto]. now rewrite H. Qed.

(** C8: the prototype that [RestClient] prepares carries the default
    transport config, in which [mode], [cache] and [credentials] (and any
    other field but [headers]) hold the caller's value when the caller gave
    one and [cors], [no-cache], [include] otherwise, and whose headers are
    the built-in ones overridden name by name by the caller's; it carries the
    base URL, and the auth type, which is the empty string when none was
    given.  An instance that does not shadow these properties reads them
    from the prototype. *)
Theorem client_defaults (restOptions target own_ps : obj) :
  exists dc hs,
    own (RestClient restOptions target) "defaultConfigs" = VObj dc
    /\ (forall k, k <> "headers" ->
          assoc k dc
          = match assoc k (rest_without ["baseUrl"; "authType"] restOptions) with
            | Some v => Some v
            | None => assoc k [("mode", VStr "cors"); ("cache", VStr "no-cache");
                               ("credentials", VStr "include")]
            end)
    /\ own dc "headers" = VObj hs
    /\ (forall name,
          assoc name hs
          = overridden_by (own restOptions "headers") name
              (assoc name [("Accept", VStr "application/json");
                           ("Content-Type", VStr "application/json")]))
    /\ own (RestClient restOptions target) "baseUrl" = own restOptions "baseUrl"
    /\ (truthy (own restOptions "authType") = true ->
        own (RestClient restOptions target) "authType" = own restOptions "authType")
    /\ (truthy (own restOptions "authType") = false ->
        own (RestClient restOptions target) "authType" = VStr "")
    /\ (forall k,
          In k ["defaultConfigs"; "baseUrl"; "authType"] ->
          assoc k own_ps = None ->
          inst_prop {| own_props := own_ps; proto := RestClient restOptions target |} k
          = own (RestClient restOptions target) k).
Proof.
  destruct (defaultConfigsToUse_headers restOptions) as [hs [Hhs Hnames]].
  exists (defaultConfigsToUse restOptions), hs.
  split; [apply RestClient_defaultConfigs|].
  split.
  { intros k Hk. rewrite (defaultConfigsToUse_other _ _ Hk).
    destruct (assoc k (rest_without ["baseUrl"; "authType"] restOptions)); auto.
    unfold builtin_configs. cbn [assoc].
    destruct (String.eqb_spec "headers" k); [congruence | reflexivity]. }
  split; [exact Hhs|].
  split; [exact Hnames|].
  split; [apply RestClient_baseUrl|].
  split; [| split].
  - intros Ht. rewrite RestClient_authType. unfold js_or. now rewrite Ht.
  - intros Ht. rewrite RestClient_authType. unfold js_or. now rewrite Ht.
  - intros k _ Hk. now apply inst_prop_inherited.
Qed.

Lemma client_defaults_witness :
  exists dc hs,
    own (proto sample_client_instance) "defaultConfigs" = VObj dc
    /\ assoc "mode" dc = Some (VStr "cors")
    /\ assoc "cache" dc = Some (VStr "reload")
    /\ assoc "credentials" dc = Some (VStr "include")
    /\ own dc "headers" = VObj hs
    /\ assoc "Accept" hs = Some (VStr "text/plain")
    /\ assoc "Content-Type" hs = Some (VStr "application/json")
    /\ inst_prop sample_client_instance "baseUrl" = VStr "http://h"
    /\ inst_prop sample_client_instance "authType" = VStr "".
Proof.
  destruct (client_defaults sample_client_options [] [])
    as [dc [hs (Hdc & Hk & Hhs & Hn & Hb & _ & Ha & Hi)]].
  exists dc, hs.
  split; [exact Hdc|].
  split; [rewrite (Hk "mode") by discriminate; reflexivity|].
  split; [rewrite (Hk "cache") by discriminate; reflexivity|].
  split; [rewrite (Hk "credentials") by discriminate; reflexivity|].
  split; [exact Hhs|].
  split; [rewrite (Hn "Accept"); reflexivity|].
  split; [rewrite (Hn "Content-Type"); reflexivity|].
  split.
  - unfold sample_client_instance.
    rewrite (Hi "baseUrl") by (simpl; auto). rewrite Hb. reflexivity.
  - unfold sample_client_instance.
    rewrite (Hi "authType") by (simpl; auto). apply Ha. reflexivity.
Defined.

Lemma mergedHeaders_of_client (restOptions target own_ps : obj) (callsite : value) :
  assoc "defaultConfigs" own_ps = None ->
  exists h,
    RestApi_mergedHeaders callsite
      {| own_props := own_ps; proto := RestClient restOptions target |} = Ok h
    /\ forall name,
         assoc name h
         = overridden_by callsite name
             (overridden_by (own restOptions "headers") name
                (assoc name builtin_headers)).
Proof.
  intros Hown.
  destruct (defaultConfigsToUse_headers restOptions) as [hs [Hhs Hnames]].
  unfold RestApi_mergedHeaders.
  rewrite (inst_prop_inherited _ _ _ Hown), RestClient_defaultConfigs.
  cbn [prop]. rewrite Hhs.
  eexists. split; [reflexivity|].
  intros name. rewrite assoc_objectAssign_two.
  f_equal. unfold overridden_by at 1. rewrite source_prop_obj, Hnames.
  cbn [assoc].
  now destruct (overridden_by (own restOptions "headers") name
                  (assoc name builtin_headers)).
Qed.


(** ** The metadata store *)

Lemma get_from_undefined (root : string -> value) (k : string) (r : list string) :
  get_from root (k :: r) VUndef = baseGet (root k) r.
Proof. unfold get_from. now destruct (baseGet (root k) r). Qed.

Lemma registered_baseGet (target : obj) (key : registration_key) :
  registered target key = baseGet (VObj target) (key_path key).
Proof.
  unfold registered. destruct key; cbn [key_path]; now rewrite get_from_undefined.
Qed.

Lemma baseGet_baseSet_same (p : list string) (o : obj) (v : value) :
  p <> [] -> baseGet (VObj (baseSet o p v)) p = v.
Proof.
  revert o. induction p as [|k r IH]; intros o Hp; [congruence|].
  destruct r as [|k' r'].
  - cbn [baseSet baseGet prop]. now rewrite own_set_prop_same.
  - cbn [baseSet]. cbn [baseGet prop]. rewrite own_set_prop_same.
    apply IH. discriminate.
Qed.

Lemma baseGet_primitive (v : value) (k : string) (r : list string) :
  not_string v = true ->
  (forall o, v <> VObj o) ->
  baseGet v (k :: r) = VUndef.
Proof.
  intros Hs Ho. destruct v; cbn [baseGet prop]; try reflexivity.
  - now destruct r.
  - now destruct r.
  - discriminate.
  - now specialize (Ho props).
Qed.

Lemma baseGet_empty_object (k : string) (r : list string) :
  baseGet (VObj []) (k :: r) = VUndef.
Proof. cbn [baseGet prop]. unfold own. cbn [assoc]. now destruct r. Qed.

Lemma strings_clear_empty_object (path : list string) :
  strings_clear (VObj []) path = true.
Proof.
  destruct path as [|k r]; [reflexivity|].
  cbn [strings_clear not_string andb]. unfold own. cbn [assoc].
  now destruct r.
Qed.

Lemma baseSet_cons (o : obj) (k : string) (r : list string) (v : value) :
  exists x, baseSet o (k :: r) v = set_prop o k x
            /\ (r <> [] ->
                x = VObj (baseSet (match own o k with VObj c => c | _ => [] end) r v)).
Proof.
  destruct r as [|k' r'].
  - exists v. split; [reflexivity | congruence].
  - eexists. split; [reflexivity | reflexivity].
Qed.

Lemma diverges_nonempty (p q : list string) :
  diverges p q = true -> p <> [] /\ q <> [].
Proof. destruct p, q; simpl; intros H; try discriminate. split; discriminate. Qed.

(** Setting one path leaves what is found along a path that parts ways with
    it, provided no string lies on that path. *)
Lemma baseGet_baseSet_other (p q : list string) (o : obj) (v : value) :
  diverges p q = true ->
  strings_clear (VObj o) q = true ->
  baseGet (VObj (baseSet o p v)) q = baseGet (VObj o) q.
Proof.
  revert q o. induction p as [|a p' IH]; intros q o Hd Hc; [discriminate|].
  destruct q as [|b q']; [discriminate|].
  cbn [diverges] in Hd.
  destruct (baseSet_cons o a p' v) as [x [Hx Hx']]. rewrite Hx.
  cbn [baseGet prop].
  destruct (String.eqb_spec a b) as [<-|Hab].
  - destruct (diverges_nonempty _ _ Hd) as [Hp' Hq'].
    rewrite own_set_prop_same, (Hx' Hp').
    cbn [strings_clear not_string andb] in Hc.
    destruct q' as [|c q'']; [congruence|].
    destruct (own o a) as [| | bo | n | s | n'] eqn:E;
      try (rewrite IH by (auto using strings_clear_empty_object);
           rewrite baseGet_empty_object;
           symmetry; apply baseGet_primitive;
           [reflexivity | intros ? ?; discriminate]).
    + (* a string lies on the way: excluded *)
      cbn [strings_clear not_string andb] in Hc. discriminate.
    + now apply IH.
  - now rewrite own_set_prop_other by congruence.
Qed.

Lemma key_path_diverges (k1 k2 : registration_key) :
  k1 <> k2 -> diverges (key_path k1) (key_path k2) = true.
Proof.
  intros Hne.
  destruct k1 as [m k | m | m | c], k2 as [m' k' | m' | m' | c'];
    cbn [key_path diverges];
    rewrite ?String.eqb_refl;
    try (destruct (String.eqb_spec m m') as [->|]; [|reflexivity]);
    try reflexivity.
  - destruct (String.eqb_spec k k') as [->|]; [congruence | reflexivity].
  - destruct (m =? "@CredentialProperty"); [| reflexivity]. now destruct c'.
  - congruence.
  - destruct (m =? "@CredentialProperty"); [| reflexivity]. now destruct c'.
  - congruence.
  - destruct (m =? "@CredentialProperty"); [| reflexivity]. now destruct c'.
  - destruct ("@CredentialProperty" =? m'); [| reflexivity]. now destruct c.
  - destruct ("@CredentialProperty" =? m'); [| reflexivity]. now destruct c.
  - destruct ("@CredentialProperty" =? m'); [| reflexivity]. now destruct c.
  - destruct c, c'; try reflexivity; congruence.
Qed.

Lemma register_baseSet (r : registration) (target : obj) :
  register r target = baseSet target (key_path (key_of r)) (value_of r).
Proof. now destruct r. Qed.

Lemma register_same_key (target : obj) (r : registration) :
  registered (register r target) (key_of r) = value_of r.
Proof.
  rewrite register_baseSet, registered_baseGet.
  apply baseGet_baseSet_same. now destruct r.
Qed.

Lemma register_other_key (target : obj) (r : registration)
    (key : registration_key) :
  key <> key_of r ->
  strings_clear (VObj target) (key_path key) = true ->
  registered (register r target) key = registered target key.
Proof.
  intros Hne Hc. rewrite register_baseSet, !registered_baseGet.
  apply baseGet_baseSet_other; [|exact Hc].
  apply key_path_diverges. congruence.
Qed.

(** No string stands where the store expects an object: this holds of a
    class that carries no metadata yet, and every registration keeps it. *)
Lemma strings_clear_fresh (target : obj) (key : registration_key) :
  assoc "__decorators" target = None ->
  strings_clear (VObj target) (key_path key) = true.
Proof.
  intros H. destruct key; cbn [key_path strings_clear not_string andb];
    unfold own; rewrite H; reflexivity.
Qed.

Lemma strings_clear_baseSet (p q : list string) (o : obj) (v : value) :
  diverges p q = true \/ p = q ->
  strings_clear (VObj o) q = true ->
  strings_clear (VObj (baseSet o p v)) q = true.
Proof.
  revert q o. induction p as [|a p' IH]; intros q o Hpq Hc.
  - destruct Hpq as [Hd | <-]; [discriminate | reflexivity].
  - destruct q as [|b q']; [reflexivity|].
    cbn [strings_clear not_string andb] in *.
    destruct (baseSet_cons o a p' v) as [x [Hx Hx']]. rewrite Hx.
    destruct (String.eqb_spec a b) as [<-|Hab].
    + rewrite own_set_prop_same.
      assert (Hpq' : p' = [] /\ q' = [] \/ p' <> [] /\ (diverges p' q' = true \/ p' = q')).
      { destruct Hpq as [Hd | He].
        - cbn [diverges] in Hd. rewrite String.eqb_refl in Hd.
          right. split; [now apply diverges_nonempty in Hd | now left].
        - inversion He; subst q'. destruct p'; [now left | right].
          split; [discriminate | now right]. }
      destruct Hpq' as [[-> ->] | [Hp' Hpq']].
      * now destruct x.
      * rewrite (Hx' Hp'). apply IH; [exact Hpq'|].
        destruct (own o a); auto using strings_clear_empty_object.
    + rewrite own_set_prop_other by congruence. exact Hc.
Qed.

Lemma strings_clear_register (target : obj) (r : registration) :
  (forall key, strings_clear (VObj target) (key_path key) = true) ->
  forall key, strings_clear (VObj (register r target)) (key_path key) = true.
Proof.
  intros Hall key. rewrite register_baseSet.
  apply strings_clear_baseSet; [|apply Hall].
  destruct (diverges (key_path (key_of r)) (key_path key)) eqn:E; [now left|].
  right. f_equal.
  assert (Hk : forall k1 k2, k1 = k2 \/ k1 <> k2 :> registration_key).
  { intros k1 k2.
    destruct k1 as [m k | m | m | c], k2 as [m' k' | m' | m' | c'];
      try (right; discriminate).
    - destruct (string_dec m m') as [->|]; [|right; congruence].
      destruct (string_dec k k') as [->|]; [now left | right; congruence].
    - destruct (string_dec m m') as [->|]; [now left | right; congruence].
    - destruct (string_dec m m') as [->|]; [now left | right; congruence].
    - destruct c, c'; (now left) || (right; discriminate). }
  destruct (Hk (key_of r) key) as [Heq | Hne]; [exact Heq|].
  apply key_path_diverges in Hne. congruence.
Qed.

Lemma decorated_strings_clear (target : obj) :
  decorated target ->
  forall key, strings_clear (VObj target) (key_path key) = true.
Proof.
  induction 1 as [target Hfresh | r target Hd IH]; intros key.
  - now apply strings_clear_fresh.
  - now apply strings_clear_register.
Qed.

(** ** The query string *)

Lemma own_keys_nonempty (o : obj) : o <> [] -> own_keys o <> [].
Proof.
  destruct o as [|[k v] r]; [congruence|]. intros _ Hk.
  assert (Hin : In k (own_keys ((k, v) :: r))).
  { apply In_own_keys. cbn [assoc]. now rewrite String.eqb_refl. }
  rewrite Hk in Hin. contradiction.
Qed.

(** C6: once the path is filled in, a query argument that is an object
    with at least one own key adds [?] and its serialization to the URL; an
    object without keys, or an absent argument, adds nothing.  The argument
    is the one at the registered index. *)
Theorem query_string_appended
    (qs_stringify : value -> string) (url : string) (inst : instance)
    (methodName : string) (inputs : list value) (u : string) :
  RestApi_pathUrl url inst methodName inputs = Ok u ->
  let argument :=
    element inputs
      (get inst ["__decorators"; methodName; "@QueryParams"] VUndef) in
  (forall o, argument = VObj o -> o <> [] ->
     RestApi_urlToUse qs_stringify url inst methodName inputs
     = Ok (u ++ "?" ++ qs_stringify (VObj o)))
  /\ (argument = VObj [] \/ argument = VUndef ->
      RestApi_urlToUse qs_stringify url inst methodName inputs = Ok u)
  /\ (forall i,
        get inst ["__decorators"; methodName; "@QueryParams"] VUndef
        = VNum (Z.of_nat i) ->
        (N.of_nat i <= 4294967294)%N ->
        argument = nth i inputs VUndef).
Proof.
  intros Hu argument.
  unfold RestApi_urlToUse. rewrite Hu. cbn [bind].
  unfold _getQueryParams. fold argument.
  split; [| split].
  - intros o Ho Hne. rewrite Ho. cbn [js_or truthy Object_keys bind].
    apply own_keys_nonempty in Hne.
    destruct (own_keys o); [congruence | reflexivity].
  - intros [Ho | Ho]; rewrite Ho; reflexivity.
  - intros i Hi Hle. unfold argument. rewrite Hi. now apply element_nat.
Qed.

Lemma query_string_appended_witness :
  RestApi_urlToUse sample_qs "/search" search_instance "search"
                   [VObj [("a", VNum 1)]]
  = Ok "http://h/search?a=1"
  /\ RestApi_urlToUse sample_qs "/search" search_instance "search" [VObj []]
     = Ok "http://h/search"
  /\ RestApi_urlToUse sample_qs "/search" search_instance "search" []
     = Ok "http://h/search".
Proof.
  pose proof (fun inputs =>
    query_string_appended sample_qs "/search" search_instance "search" inputs
      "http://h/search" eq_refl) as H.
  split; [| split].
  - apply (proj1 (H [VObj [("a", VNum 1)]]) [("a", VNum 1)]);
      [reflexivity | discriminate].
  - apply (proj1 (proj2 (H [VObj []]))). left. reflexivity.
  - apply (proj1 (proj2 (H []))). right. reflexivity.
Defined.

(** ** Path placeholders *)

Lemma GetSubstitution_dollar_free (matched before after template : string) :
  dollar_free template = true ->
  GetSubstitution matched before after template = template.
Proof.
  unfold dollar_free.
  induction template as [|c t IH]; cbn [GetSubstitution string_existsb]; auto.
  intros H. apply negb_true_iff, orb_false_iff in H as [Hc Ht].
  rewrite Hc. f_equal. apply IH. now rewrite Ht.
Qed.

Lemma replace_scan_literal (pat template subject : string) (pos skip : nat)
    (s : string) :
  dollar_free template = true ->
  replace_scan pat template subject pos skip s
  = replace_every pat template skip s.
Proof.
  intros Hd. revert pos skip.
  induction s as [|c r IH]; intros pos skip; cbn [replace_scan replace_every]; auto.
  destruct skip as [|k]; [|apply IH].
  destruct (String.prefix pat (String c r)).
  - now rewrite GetSubstitution_dollar_free, IH.
  - now rewrite IH.
Qed.

Lemma RegExp_braces_plain (k : string) :
  plain_key k = true -> RegExp_braces k = Ok (Literal (placeholder k)).
Proof.
  unfold plain_key, RegExp_braces. intros H.
  apply andb_true_iff in H as [Hq Hs].
  apply negb_true_iff in Hq, Hs. now rewrite Hq, Hs.
Qed.

Lemma replace_path_params_literal (pp : obj) (inputs : list value)
    (ks : list string) (u : string) :
  (forall k, In k ks -> plain_key k = true) ->
  (forall k, In k ks ->
     dollar_free (ToString (element inputs (own pp k))) = true) ->
  replace_path_params (VObj pp) inputs ks u
  = Ok (fill_placeholders
          (map (fun k => (k, element inputs (own pp k))) ks) u).
Proof.
  revert u. induction ks as [|k r IH]; intros u Hp Hd; [reflexivity|].
  cbn [replace_path_params prop map].
  rewrite (RegExp_braces_plain k) by (apply Hp; now left).
  cbn [bind String_replace].
  rewrite replace_scan_literal by (apply Hd; now left).
  rewrite IH; [reflexivity | |].
  - intros k' Hk'. apply Hp. now right.
  - intros k' Hk'. apply Hd. now right.
Qed.


(** A token that does not occur is not replaced: a placeholder without a
    binding stays as written. *)
Lemma replace_every_absent (token text s : string) :
  occurs token s = false -> replace_every token text 0 s = s.
Proof.
  induction s as [|c r IH]; cbn [occurs replace_every]; auto.
  intros H. apply orb_false_iff in H as [Hp Ho].
  rewrite Hp. f_equal. now apply IH.
Qed.

Lemma pathUrl_without_bindings (url : string) (inst : instance)
    (methodName : string) (inputs : list value) :
  _getPathParams inst methodName = VObj [] ->
  RestApi_pathUrl url inst methodName inputs
  = Ok (ToString (inst_prop inst "baseUrl") ++ url).
Proof.
  intros Hpp. unfold RestApi_pathUrl. now rewrite Hpp.
Qed.

Example getUser_42 :
  RestApi_pathUrl "/users/{id}/{page}" user_instance "getUser" [VStr "42"]
  = Ok "http://h/users/42/{page}".
Proof. reflexivity. Qed.

(** C1 at an argument with a dollar sign: [getUser("a$$b")] on the
    template [/users/{id}].  The specification puts the argument into the
    URL as it is; the code hands it to [replace] as a replacement pattern, in
    which [$$] stands for one [$] and [$&] for the matched token. *)
Theorem path_argument_with_dollar :
  fill_placeholders [("id", VStr "a$$b")] ("http://h" ++ "/users/{id}")
  = "http://h/users/a$$b"
  /\ RestApi_pathUrl "/users/{id}" user_instance "getUser" [VStr "a$$b"]
     = Ok "http://h/users/a$b"
  /\ RestApi_pathUrl "/users/{id}" user_instance "getUser" [VStr "$&"]
     = Ok "http://h/users/{id}".
Proof. repeat split. Qed.

(** A placeholder named by a number makes the regular expression a
    quantifier with nothing to repeat, and the call throws. *)
Lemma path_placeholder_named_by_number :
  RestApi_pathUrl "/users/{1}" numbered_instance "getUser" [VStr "42"]
  = Throw SyntaxError.
Proof. reflexivity. Qed.

(** ** What the request transform receives *)

Lemma fetchOptions_fields
    (qs_stringify : value -> string) (url : string) (api : RestApiOptions)
    (inst : instance) (methodName : string) (inputs : list value)
    (fo : obj) (body : value) :
  RestApi_fetchOptions qs_stringify url api inst methodName inputs = Ok (fo, body) ->
  exists u h,
    RestApi_urlToUse qs_stringify url inst methodName inputs = Ok u
    /\ RestApi_headersToUse (or_default (own (options api) "headers") (VObj [])) inst
       = Ok h
    /\ own fo "headers" = VObj h
    /\ (assoc "url" (options api) = None -> own fo "url" = VStr u)
    /\ body = _getRequestBody inst methodName inputs.
Proof.
  unfold RestApi_fetchOptions. intros H.
  destruct (RestApi_urlToUse qs_stringify url inst methodName inputs) as [u | |];
    cbn [bind] in H; try discriminate.
  destruct (RestApi_headersToUse _ inst) as [h | |]; cbn [bind] in H; try discriminate.
  destruct (method_toUpperCase _) as [upper | |]; cbn [bind] in H; try discriminate.
  inversion H; subst fo body; clear H.
  exists u, h. split; [reflexivity|]. split; [reflexivity|].
  split; [| split; [| reflexivity]].
  - apply (own_assign_rest
             [("url", VStr u); ("method", upper); ("signal", VObj []);
              ("headers", VObj h)]
             ["headers"; "method"; "request_transform"; "response_transform"]
             (options api) "headers").
    simpl. auto.
  - intros Hurl.
    change (own (objectAssign
                   [("url", VStr u); ("method", upper); ("signal", VObj []);
                    ("headers", VObj h)]
                   [VObj (rest_without
                            ["headers"; "method"; "request_transform";
                             "response_transform"] (options api))]) "url"
            = VStr u).
    unfold own. rewrite assoc_objectAssign_one. unfold overridden_by.
    rewrite source_prop_obj, assoc_rest_without.
    cbn [existsb]. rewrite Hurl.
    now destruct (_ || _).
Qed.

(** The default request transform sends the headers it was given. *)
Lemma request_headers_sent
    (qs_stringify : value -> string) (url : string) (api : RestApiOptions)
    (inst : instance) (methodName : string) (inputs : list value) (sent : obj) :
  request_transform api = None ->
  RestApi_request qs_stringify url api inst methodName inputs = Ok sent ->
  exists h,
    RestApi_headersToUse (or_default (own (options api) "headers") (VObj [])) inst
    = Ok h
    /\ own sent "headers" = VObj h.
Proof.
  intros Ht. unfold RestApi_request. rewrite Ht.
  destruct (RestApi_fetchOptions qs_stringify url api inst methodName inputs)
    as [[fo body] | |] eqn:E; cbn [bind fst snd]; try discriminate.
  destruct (fetchOptions_fields _ _ _ _ _ _ _ _ E) as [u [h (_ & Hh & Hfo & _)]].
  unfold _defaultRequestTransform.
  destruct (if value_eq_str (own fo "method") HttpVerbEnum.GET then _ else _)
    as [b | |]; cbn [bind]; try discriminate.
  intros H. injection H as <-.
  exists h. split; [exact Hh|].
  change (own (set_prop fo "body" b) "headers" = VObj h).
  rewrite own_set_prop_other by discriminate. exact Hfo.
Qed.

(** One call from end to end: [update(7, {a: 1}, {x: 1})]. *)
Example update_request :
  RestApi_request sample_qs "/items/{id}" put_api full_instance "update"
                  [VNum 7; VObj [("a", VNum 1)]; sample_body]
  = Ok [("url", VStr "http://h/items/7?a=1");
        ("method", VStr "PUT");
        ("signal", VObj []);
        ("headers",
         VObj [("Accept", VStr "application/json");
               ("Content-Type", VStr "application/json");
               ("X-Trace", VStr "1");
               ("Authorization", VStr "Bearer tok")]);
        ("body", VStr sample_body_text)].
Proof. reflexivity. Qed.

(** * Further properties of the code *)

(** ** Metadata read back through an instance *)

Lemma get_inherited (own_ps prototype : obj) (k : string) (r : list string)
    (d : value) :
  assoc k own_ps = None ->
  get {| own_props := own_ps; proto := prototype |} (k :: r) d
  = get_from (own prototype) (k :: r) d.
Proof.
  intros H. unfold get, get_from. now rewrite (inst_prop_inherited _ _ _ H).
Qed.

Lemma RestClient_other (restOptions target : obj) (k : string) :
  k <> "defaultConfigs" -> k <> "baseUrl" -> k <> "authType" ->
  assoc k (RestClient restOptions target) = assoc k target.
Proof.
  intros H1 H2 H3. unfold RestClient.
  now rewrite !assoc_set_prop_other by assumption.
Qed.

Lemma registered_RestClient (restOptions target : obj) (key : registration_key) :
  registered (RestClient restOptions target) key = registered target key.
Proof.
  unfold registered.
  destruct key; cbn [key_path]; rewrite !get_from_undefined;
    unfold own; now rewrite RestClient_other by discriminate.
Qed.

Lemma get_registered (own_ps prototype : obj) (key : registration_key) :
  assoc "__decorators" own_ps = None ->
  get {| own_props := own_ps; proto := prototype |} (key_path key) VUndef
  = registered prototype key.
Proof.
  intros H. unfold registered. destruct key; cbn [key_path];
    now apply get_inherited.
Qed.

(** X1: The class decorator leaves the prototype as it finds it but for the
    three properties it sets; in particular every registration made by the
    parameter and property decorators is found as before. *)
Theorem RestClient_keeps_metadata (restOptions target : obj)
    (key : registration_key) (k : string) :
  registered (RestClient restOptions target) key = registered target key
  /\ (if existsb (String.eqb k) ["defaultConfigs"; "baseUrl"; "authType"]
      then True
      else assoc k (RestClient restOptions target) = assoc k target).
Proof.
  split; [apply registered_RestClient|].
  cbn [existsb].
  destruct (String.eqb_spec k "defaultConfigs"); [exact I|].
  destruct (String.eqb_spec k "baseUrl"); [exact I|].
  destruct (String.eqb_spec k "authType"); [exact I|].
  now apply RestClient_other.
Qed.

(** X2: [RequestBody] then [_getRequestBody]: the body of a call is the
    argument at the declared position, [undefined] when the call has fewer
    arguments. *)
Theorem RequestBody_round_trip (restOptions target own_ps : obj)
    (methodName : string) (paramIdx : nat) (inputs : list value) :
  assoc "__decorators" own_ps = None ->
  (N.of_nat paramIdx <= 4294967294)%N ->
  _getRequestBody
    {| own_props := own_ps;
       proto := RestClient restOptions (RequestBody target methodName paramIdx) |}
    methodName inputs
  = nth paramIdx inputs VUndef.
Proof.
  intros Hown Hidx. unfold _getRequestBody.
  rewrite (get_registered own_ps _ (KeyRequestBody methodName) Hown).
  rewrite registered_RestClient.
  pose proof (register_same_key target (RegRequestBody methodName paramIdx)) as Hreg.
  cbn [register key_of value_of] in Hreg. rewrite Hreg.
  now apply element_nat.
Qed.

Lemma RequestBody_round_trip_witness :
  _getRequestBody save_instance "save" [VObj []; sample_body] = sample_body
  /\ _getRequestBody save_instance "save" [VObj []] = VUndef.
Proof.
  split.
  - apply (RequestBody_round_trip [("baseUrl", VStr "http://h")]
             (QueryParams [] "save" 0) [] "save" 1 [VObj []; sample_body]);
      [reflexivity | discriminate].
  - apply (RequestBody_round_trip [("baseUrl", VStr "http://h")]
             (QueryParams [] "save" 0) [] "save" 1 [VObj []]);
      [reflexivity | discriminate].
Defined.

(** X3: [QueryParams] then [_getQueryParams]: the query parameters of a call
    are the argument at the declared position, and the empty object when that
    argument is missing or falsy. *)
Theorem QueryParams_round_trip (restOptions target own_ps : obj)
    (methodName : string) (paramIdx : nat) (inputs : list value) :
  assoc "__decorators" own_ps = None ->
  (N.of_nat paramIdx <= 4294967294)%N ->
  _getQueryParams
    {| own_props := own_ps;
       proto := RestClient restOptions (QueryParams target methodName paramIdx) |}
    methodName inputs
  = if truthy (nth paramIdx inputs VUndef)
    then nth paramIdx inputs VUndef
    else VObj [].
Proof.
  intros Hown Hidx. unfold _getQueryParams.
  rewrite (get_registered own_ps _ (KeyQueryParams methodName) Hown).
  rewrite registered_RestClient.
  pose proof (register_same_key target (RegQueryParams methodName paramIdx)) as Hreg.
  cbn [register key_of value_of] in Hreg. rewrite Hreg.
  now rewrite element_nat.
Qed.

Lemma QueryParams_round_trip_witness :
  _getQueryParams search_instance "search" [VObj [("a", VNum 1)]]
  = VObj [("a", VNum 1)]
  /\ _getQueryParams search_instance "search" [] = VObj [].
Proof.
  split.
  - apply (QueryParams_round_trip [("baseUrl", VStr "http://h")] [] []
             "search" 0 [VObj [("a", VNum 1)]]);
      [reflexivity | discriminate].
  - apply (QueryParams_round_trip [("baseUrl", VStr "http://h")] [] []
             "search" 0 []);
      [reflexivity | discriminate].
Defined.

Lemma baseGet_baseSet_parent (p : list string) (k : string) (o : obj) (v : value) :
  p <> [] ->
  exists c,
    baseGet (VObj (baseSet o (p ++ [k]) v)) p = VObj c /\ own c k = v.
Proof.
  revert o. induction p as [|a r IH]; intros o Hp; [congruence|].
  destruct r as [|a' r'].
  - cbn [app baseSet baseGet prop]. rewrite own_set_prop_same.
    eexists. split; [reflexivity | apply own_set_prop_same].
  - change ((a :: a' :: r') ++ [k])%list with (a :: a' :: (r' ++ [k]))%list.
    cbn [baseSet]. cbn [baseGet prop]. rewrite own_set_prop_same.
    change (a' :: (r' ++ [k]))%list with ((a' :: r') ++ [k])%list.
    apply IH. discriminate.
Qed.

Lemma RestClient_decorators (restOptions target : obj) :
  own (RestClient restOptions target) "__decorators" = own target "__decorators".
Proof. unfold own. now rewrite RestClient_other by discriminate. Qed.

Lemma getPathParams_baseGet (restOptions target own_ps : obj) (methodName : string) :
  assoc "__decorators" own_ps = None ->
  _getPathParams
    {| own_props := own_ps; proto := RestClient restOptions target |} methodName
  = or_default (baseGet (VObj target) ["__decorators"; methodName; "@PathParam"])
               (VObj []).
Proof.
  intros Hown. unfold _getPathParams.
  rewrite (get_inherited _ _ _ _ _ Hown). unfold get_from.
  rewrite RestClient_decorators.
  change (baseGet (VObj target) ["__decorators"; methodName; "@PathParam"])
    with (baseGet (own target "__decorators") [methodName; "@PathParam"]).
  now destruct (baseGet (own target "__decorators") [methodName; "@PathParam"]).
Qed.

Lemma baseGet_app (v : value) (p q : list string) (c : obj) :
  baseGet v p = VObj c -> baseGet v (p ++ q) = baseGet (VObj c) q.
Proof.
  revert v. induction p as [|a r IH]; intros v H.
  - cbn [baseGet] in H. now subst v.
  - cbn [app baseGet] in *.
    destruct v; try discriminate; now apply IH.
Qed.

Lemma registration_key_eq_dec (k1 k2 : registration_key) : {k1 = k2} + {k1 <> k2}.
Proof.
  decide equality; try apply string_dec.
  decide equality.
Qed.

Lemma register_other_prop (r : registration) (target : obj) (k : string) :
  k <> "__decorators" -> assoc k (register r target) = assoc k target.
Proof.
  intros Hk. rewrite register_baseSet.
  assert (Hpath : exists rest, key_path (key_of r) = "__decorators" :: rest)
    by (destruct r; eexists; reflexivity).
  destruct Hpath as [rest ->].
  destruct (baseSet_cons target "__decorators" rest (value_of r)) as [x [-> _]].
  now apply assoc_set_prop_other.
Qed.

(** ** More on the Authorization header *)



(** X9: No auth type but [Bearer] and [Basic] ever adds an Authorization
    header: with the empty auth type of a client configured without one, or
    any other value, the headers go out as merged. *)
Theorem other_auth_types_add_no_header
    (headers : value) (inst : instance) (h : obj) :
  RestApi_mergedHeaders headers inst = Ok h ->
  inst_prop inst "authType" <> VStr "Bearer" ->
  inst_prop inst "authType" <> VStr "Basic" ->
  RestApi_headersToUse headers inst = Ok h.
Proof.
  intros Hh H1 H2.
  apply headersToUse_without_credential; [exact Hh|].
  unfold _getCredential, AuthTypeEnum.Bearer, AuthTypeEnum.Basic.
  now rewrite (value_eq_str_false _ _ H1), (value_eq_str_false _ _ H2).
Qed.

Lemma other_auth_types_add_no_header_witness :
  RestApi_headersToUse (VObj []) no_auth_instance = Ok builtin_headers.
Proof.
  apply (other_auth_types_add_no_header (VObj []) no_auth_instance
           builtin_headers eq_refl); discriminate.
Defined.

(** X10: [CredentialProperty] through to the header: on a Bearer client whose
    class declares the access-token property, an instance holding a
    non-empty token there sends [Bearer] and the token. *)
Theorem CredentialProperty_round_trip
    (restOptions target own_ps : obj) (propertyName tok : string)
    (callsite : value) :
  own restOptions "authType" = VStr "Bearer" ->
  assoc "__decorators" own_ps = None ->
  assoc "authType" own_ps = None ->
  assoc "defaultConfigs" own_ps = None ->
  assoc propertyName own_ps = Some (VStr tok) ->
  tok <> "" ->
  exists sent,
    RestApi_headersToUse callsite
      {| own_props := own_ps;
         proto := RestClient restOptions
                    (CredentialProperty AccessToken target propertyName) |}
    = Ok sent
    /\ own sent "Authorization" = VStr ("Bearer " ++ tok).
Proof.
  intros Hauth Hd Ha Hc Hp Htok.
  set (inst := {| own_props := own_ps;
                  proto := RestClient restOptions
                             (CredentialProperty AccessToken target propertyName) |}).
  destruct (mergedHeaders_of_client restOptions
              (CredentialProperty AccessToken target propertyName)
              own_ps callsite Hc) as [h [Hh _]].
  fold inst in Hh.
  assert (Htype : inst_prop inst "authType" = VStr "Bearer").
  { unfold inst. rewrite (inst_prop_inherited _ _ _ Ha), RestClient_authType.
    now rewrite Hauth. }
  assert (Hcred : credential_property inst AccessToken = VStr tok).
  { rewrite (credential_property_declared inst AccessToken propertyName).
    - unfold inst, inst_prop. cbn [own_props]. now rewrite Hp.
    - unfold inst.
      rewrite (get_registered own_ps _ (KeyCredential AccessToken) Hd).
      rewrite registered_RestClient.
      exact (register_same_key target (RegCredential AccessToken propertyName)). }
  exists (set_prop h "Authorization" (VStr ("Bearer " ++ tok))). split.
  - rewrite (headersToUse_with_credential callsite inst h Hh).
    + now rewrite Htype, (_getCredential_Bearer _ Htype), Hcred.
    + now rewrite Htype.
    + rewrite (_getCredential_Bearer _ Htype), Hcred. now apply truthy_VStr.
  - apply own_set_prop_same.
Qed.

Lemma CredentialProperty_round_trip_witness :
  exists sent,
    RestApi_headersToUse (VObj []) bearer_instance = Ok sent
    /\ own sent "Authorization" = VStr "Bearer tok".
Proof.
  apply (CredentialProperty_round_trip
           [("baseUrl", VStr "http://h"); ("authType", VStr "Bearer")]
           [] [("token", VStr "tok")] "token" "tok" (VObj []));
    try reflexivity.
  discriminate.
Defined.

(** ** What reaches the transport *)

(** X11: The default request transform sets [body] and nothing else: the URL,
    the method, the headers, the signal and every other option come out as
    they went in. *)
Theorem default_transform_changes_only_body
    (fo : obj) (body : value) (inst : instance) (sent : obj) (k : string) :
  _defaultRequestTransform fo body inst = Ok sent ->
  k <> "body" ->
  assoc k sent = assoc k fo.
Proof.
  unfold _defaultRequestTransform. intros H Hk.
  destruct (if value_eq_str (own fo "method") HttpVerbEnum.GET then _ else _)
    as [b | |]; cbn [bind] in H; try discriminate.
  injection H as <-.
  change (assoc k (set_prop fo "body" b) = assoc k fo).
  now apply assoc_set_prop_other.
Qed.

Lemma default_transform_changes_only_body_witness :
  assoc "url" (set_prop post_options "body" (VStr sample_body_text))
  = assoc "url" post_options.
Proof.
  apply (default_transform_changes_only_body post_options sample_body
           sample_instance (set_prop post_options "body" (VStr sample_body_text))
           "url");
    [reflexivity | discriminate].
Defined.

(** ** Calls that throw *)

(** X13: A method of a class that [RestClient] did not configure throws a
    [TypeError] when called: there is no [defaultConfigs] to take the headers
    from, and nothing is sent. *)
Theorem unconfigured_class_throws
    (qs_stringify : value -> string) (JSON_parse : string -> option value)
    (nodeFetch : value -> obj -> outcome Response)
    (url : string) (api : RestApiOptions) (inst : instance)
    (methodName : string) (inputs : list value) (u : string) :
  RestApi_urlToUse qs_stringify url inst methodName inputs = Ok u ->
  inst_prop inst "defaultConfigs" = VUndef ->
  RestApi qs_stringify JSON_parse nodeFetch url api inst methodName inputs
  = Throw TypeError.
Proof.
  intros Hu Hd.
  unfold RestApi, RestApi_request, RestApi_fetchOptions.
  rewrite Hu. cbn [bind].
  unfold RestApi_headersToUse, RestApi_mergedHeaders. rewrite Hd. reflexivity.
Qed.

Lemma unconfigured_class_throws_witness :
  RestApi sample_qs sample_parse sample_fetch "/users/{id}" default_api
          unconfigured_instance "getUser" [VStr "42"]
  = Throw TypeError.
Proof.
  apply (unconfigured_class_throws sample_qs sample_parse sample_fetch
           "/users/{id}" default_api unconfigured_instance "getUser" [VStr "42"]
           "undefined/users/42");
    reflexivity.
Defined.




(** ** More on the URL *)


Lemma to_uint_not_Nil (x : N) : N.to_uint x <> Decimal.Nil.
Proof.
  intros E. pose proof (DecimalN.Unsigned.of_to x) as E'.
  rewrite E in E'. cbn in E'. subst x. discriminate.
Qed.

Lemma array_index_decimal (x : N) :
  array_index (NilZero.string_of_uint (N.to_uint x))
  = if (x <=? 4294967294)%N then Some x else None.
Proof.
  unfold array_index.
  rewrite (NilZero.usu _ (to_uint_not_Nil x)).
  cbv zeta. now rewrite DecimalN.Unsigned.of_to, String.eqb_refl.
Qed.

Lemma decimal_not_length (x : N) :
  NilZero.string_of_uint (N.to_uint x) <> "length".
Proof.
  intros E. pose proof (NilZero.usu _ (to_uint_not_Nil x)) as H.
  rewrite E in H. discriminate.
Qed.

(** [inputs[i]] beyond the arguments of the call. *)
Lemma element_beyond (inputs : list value) (i : nat) :
  (List.length inputs <= i)%nat ->
  element inputs (VNum (Z.of_nat i)) = VUndef.
Proof.
  intros Hi. unfold element. rewrite ToString_nat, array_index_decimal.
  destruct (N.of_nat i <=? 4294967294)%N.
  - rewrite Nat2N.id. now apply nth_overflow.
  - destruct (String.eqb_spec (NilZero.string_of_uint (N.to_uint (N.of_nat i)))
                "length") as [E|]; [|reflexivity].
    now apply decimal_not_length in E.
Qed.

(** X17: A query argument that is not an object: [null], a boolean, a number
    and the empty string add nothing to the URL; a non-empty string has its
    characters for keys and adds [?] and what the encoder makes of it. *)
Theorem primitive_query_arguments
    (qs_stringify : value -> string) (url : string) (inst : instance)
    (methodName : string) (inputs : list value) (u : string) :
  RestApi_pathUrl url inst methodName inputs = Ok u ->
  let argument :=
    element inputs
      (get inst ["__decorators"; methodName; "@QueryParams"] VUndef) in
  (argument = VNull \/ (exists b, argument = VBool b)
   \/ (exists n, argument = VNum n) \/ argument = VStr "" ->
   RestApi_urlToUse qs_stringify url inst methodName inputs = Ok u)
  /\ (forall s, argument = VStr s -> s <> "" ->
        RestApi_urlToUse qs_stringify url inst methodName inputs
        = Ok (u ++ "?" ++ qs_stringify (VStr s))).
Proof.
  intros Hu argument.
  unfold RestApi_urlToUse. rewrite Hu. cbn [bind].
  unfold _getQueryParams. fold argument. split.
  - intros [-> | [[b ->] | [[n ->] | ->]]]; try reflexivity.
    + now destruct b.
    + unfold js_or. cbn [truthy]. now destruct (n =? 0)%Z.
  - intros s -> Hs. unfold js_or. rewrite (truthy_VStr _ Hs).
    destruct s as [|c r]; [congruence | reflexivity].
Qed.

Lemma primitive_query_arguments_witness :
  RestApi_urlToUse sample_qs "/search" search_instance "search" [VNum 5]
  = Ok "http://h/search"
  /\ RestApi_urlToUse sample_qs "/search" search_instance "search" [VStr "x"]
     = Ok "http://h/search?a=1".
Proof.
  pose proof (fun inputs =>
    primitive_query_arguments sample_qs "/search" search_instance "search" inputs
      "http://h/search" eq_refl) as H.
  split.
  - apply (proj1 (H [VNum 5])). right. right. left. exists 5%Z. reflexivity.
  - apply (proj2 (H [VStr "x"]) "x"); [reflexivity | discriminate].
Defined.

Lemma get_method_without_metadata (inst : instance) (methodName name : string)
    (d : value) :
  get inst ["__decorators"; methodName] VUndef = VUndef ->
  get inst ["__decorators"; methodName; name] d = d.
Proof.
  unfold get. rewrite get_from_undefined. unfold get_from.
  cbn [baseGet]. intros H.
  destruct (inst_prop inst "__decorators"); try reflexivity;
    rewrite H; reflexivity.
Qed.

(** X18: A method none of whose parameters is decorated is called at the base
    URL followed by the template as written, with no query string and no
    body, whatever the arguments. *)
Theorem method_without_metadata
    (qs_stringify : value -> string) (url : string) (inst : instance)
    (methodName : string) (inputs : list value) :
  get inst ["__decorators"; methodName] VUndef = VUndef ->
  RestApi_urlToUse qs_stringify url inst methodName inputs
  = Ok (ToString (inst_prop inst "baseUrl") ++ url)
  /\ _getRequestBody inst methodName inputs = VUndef.
Proof.
  intros H. split.
  - unfold RestApi_urlToUse.
    rewrite pathUrl_without_bindings
      by (unfold _getPathParams; now apply get_method_without_metadata).
    cbn [bind]. unfold _getQueryParams.
    now rewrite (get_method_without_metadata _ _ _ _ H).
  - unfold _getRequestBody.
    now rewrite (get_method_without_metadata _ _ _ _ H).
Qed.

Lemma method_without_metadata_witness :
  RestApi_urlToUse sample_qs "/items/{id}" search_instance "list"
                   [VNum 1; VObj [("a", VNum 1)]]
  = Ok "http://h/items/{id}"
  /\ _getRequestBody search_instance "list" [VNum 1; VObj [("a", VNum 1)]] = VUndef.
Proof.
  apply (method_without_metadata sample_qs "/items/{id}" search_instance "list"
           [VNum 1; VObj [("a", VNum 1)]]).
  reflexivity.
Defined.

(** ** The request from end to end *)

Lemma _defaultRequestTransform_json
    (fo : obj) (body : value) (inst : instance) (h : obj) (a : string) :
  own fo "method" <> VStr "GET" ->
  own fo "headers" = VObj h ->
  own h "Accept" = VStr a ->
  _defaultRequestTransform fo body inst
  = Ok (set_prop fo "body"
          (if indicates_json a then JSON_stringify body else js_or body VNull)).
Proof.
  intros Hm Hh Ha.
  unfold _defaultRequestTransform, HttpVerbEnum.GET.
  rewrite (value_eq_str_false _ _ Hm), (accept_header_obj _ _ Hh), Ha.
  cbn [bind]. rewrite _isOfTypeJson_string. reflexivity.
Qed.

Lemma fetchOptions_returns
    (qs_stringify : value -> string) (url : string) (api : RestApiOptions)
    (inst : instance) (methodName : string) (inputs : list value)
    (u : string) (h : obj) (m : string) :
  RestApi_urlToUse qs_stringify url inst methodName inputs = Ok u ->
  RestApi_headersToUse (or_default (own (options api) "headers") (VObj [])) inst = Ok h ->
  or_default (own (options api) "method") (VStr "GET") = VStr m ->
  exists fo,
    RestApi_fetchOptions qs_stringify url api inst methodName inputs
    = Ok (fo, _getRequestBody inst methodName inputs)
    /\ own fo "method" = VStr (toUpperCase m)
    /\ own fo "headers" = VObj h.
Proof.
  intros Hu Hh Hm.
  unfold RestApi_fetchOptions, HttpVerbEnum.GET.
  rewrite Hu, Hh, Hm. cbn [bind method_toUpperCase].
  eexists. split; [reflexivity|].
  split; rewrite own_assign_rest by (simpl; auto); reflexivity.
Qed.

(** X19: [RequestBody] through to the transport: on a call with a method other
    than GET and an Accept header that indicates JSON, the body sent is the
    JSON text of the argument at the declared position. *)
Theorem json_body_of_declared_argument
    (qs_stringify : value -> string) (url : string) (api : RestApiOptions)
    (inst : instance) (methodName : string) (inputs : list value)
    (u : string) (h : obj) (a m : string) (paramIdx : nat) :
  request_transform api = None ->
  RestApi_urlToUse qs_stringify url inst methodName inputs = Ok u ->
  RestApi_headersToUse (or_default (own (options api) "headers") (VObj [])) inst = Ok h ->
  own h "Accept" = VStr a ->
  indicates_json a = true ->
  or_default (own (options api) "method") (VStr "GET") = VStr m ->
  toUpperCase m <> "GET" ->
  get inst ["__decorators"; methodName; "@RequestBody"] VUndef
  = VNum (Z.of_nat paramIdx) ->
  (N.of_nat paramIdx <= 4294967294)%N ->
  exists sent,
    RestApi_request qs_stringify url api inst methodName inputs = Ok sent
    /\ own sent "body" = JSON_stringify (nth paramIdx inputs VUndef)
    /\ own sent "method" = VStr (toUpperCase m).
Proof.
  intros Ht Hu Hh Ha Hj Hm Hup Hreg Hidx.
  destruct (fetchOptions_returns qs_stringify url api inst methodName inputs
              u h m Hu Hh Hm) as [fo (Hfo & Hmeth & Hhead)].
  unfold RestApi_request. rewrite Hfo, Ht. cbn [bind fst snd].
  rewrite (_defaultRequestTransform_json fo _ inst h a);
    [| rewrite Hmeth; congruence | exact Hhead | exact Ha].
  rewrite Hj. eexists. split; [reflexivity|]. split.
  - rewrite own_set_prop_same. unfold _getRequestBody. rewrite Hreg.
    now rewrite element_nat.
  - rewrite own_set_prop_other by discriminate. exact Hmeth.
Qed.

Lemma json_body_of_declared_argument_witness :
  exists sent,
    RestApi_request sample_qs "/save" post_api save_instance "save"
                    [VObj []; sample_body]
    = Ok sent
    /\ own sent "body" = VStr sample_body_text
    /\ own sent "method" = VStr "POST".
Proof.
  apply (json_body_of_declared_argument sample_qs "/save" post_api save_instance
           "save" [VObj []; sample_body] "http://h/save" builtin_headers
           "application/json" "post" 1);
    try reflexivity; discriminate.
Defined.



Lemma JSON_stringify_defined (v : value) :
  v <> VUndef -> exists t, JSON_stringify v = VStr t.
Proof.
  intros H. unfold JSON_stringify.
  destruct v; try congruence; cbn [stringify]; eexists; reflexivity.
Qed.

(** ** The Accept header and letter case *)

Lemma lower_upper_char (c : ascii) : lower_char (upper_char c) = lower_char c.
Proof.
  destruct c as [[] [] [] [] [] [] [] []]; vm_compute; reflexivity.
Qed.

Lemma lower_lower_char (c : ascii) : lower_char (lower_char c) = lower_char c.
Proof.
  destruct c as [[] [] [] [] [] [] [] []]; vm_compute; reflexivity.
Qed.

Lemma toLowerCase_toUpperCase (s : string) :
  toLowerCase (toUpperCase s) = toLowerCase s.
Proof.
  unfold toLowerCase, toUpperCase.
  induction s as [|c r IH]; cbn [map_string]; [reflexivity|].
  now rewrite lower_upper_char, IH.
Qed.

Lemma toLowerCase_idempotent (s : string) :
  toLowerCase (toLowerCase s) = toLowerCase s.
Proof.
  unfold toLowerCase.
  induction s as [|c r IH]; cbn [map_string]; [reflexivity|].
  now rewrite lower_lower_char, IH.
Qed.

(** ** Placeholders without a binding *)
















(** ** Registering twice *)

Lemma set_prop_twice (o : obj) (k : string) (v v' : value) :
  set_prop (set_prop o k v) k v' = set_prop o k v'.
Proof.
  induction o as [|[k0 v0] r IH]; cbn [set_prop].
  - now rewrite String.eqb_refl.
  - destruct (String.eqb_spec k0 k) as [->|Hne]; cbn [set_prop].
    + now rewrite String.eqb_refl.
    + destruct (String.eqb_spec k0 k); [contradiction|]. now rewrite IH.
Qed.

Lemma baseSet_twice (path : list string) (o : obj) (v : value) :
  baseSet (baseSet o path v) path v = baseSet o path v.
Proof.
  revert o. induction path as [|k r IH]; intros o; [reflexivity|].
  destruct r as [|k' r'].
  - cbn [baseSet]. apply set_prop_twice.
  - cbn [baseSet]. rewrite own_set_prop_same, set_prop_twice.
    f_equal. f_equal. apply IH.
Qed.

(** X24: Applying a decorator a second time with the same arguments changes
    nothing: the prototype is the one the first application left. *)
Theorem registration_idempotent (r : registration) (target : obj) :
  register r (register r target) = register r target.
Proof. rewrite !register_baseSet. apply baseSet_twice. Qed.

(** * The request and the metadata store, case by case *)

(** ** Basic mode without credential properties *)

(** C2 in Basic mode: a class configured for Basic authentication declares
    neither a username nor a password property.  No credential can be
    resolved, and the call is to go out without an Authorization header;
    the code encodes the text [undefined:undefined] and sends it as the
    credential, where the Bearer branch beside it yields none. *)
Theorem basic_without_credentials_sends_header :
  inst_prop basic_bare_instance "authType" = VStr "Basic"
  /\ get basic_bare_instance ["__decorators"; "@CredentialProperty"; "Username"] VUndef
     = VUndef
  /\ get basic_bare_instance ["__decorators"; "@CredentialProperty"; "Password"] VUndef
     = VUndef
  /\ RestApi_mergedHeaders (VObj []) basic_bare_instance = Ok builtin_headers
  /\ RestApi_headersToUse (VObj []) basic_bare_instance
     = Ok (set_prop builtin_headers "Authorization"
             (VStr "Basic dW5kZWZpbmVkOnVuZGVmaW5lZA=="))
  /\ RestApi_headersToUse (VObj []) basic_bare_instance
     <> RestApi_mergedHeaders (VObj []) basic_bare_instance
  /\ _getCredential bearer_bare_instance = VUndef
  /\ RestApi_headersToUse (VObj []) bearer_bare_instance = Ok builtin_headers.
Proof.
  repeat split; try reflexivity. discriminate.
Qed.

(** ** The default request transform, case by case *)

Lemma _isOfTypeJson_accept_text (accept : value) :
  _isOfTypeJson accept
  = match accept_text accept with
    | Some a => Ok (indicates_json a)
    | None => Throw TypeError
    end.
Proof.
  destruct accept as [| | b | n | s | o]; try reflexivity.
  - destruct b; reflexivity.
  - unfold _isOfTypeJson, js_or, accept_text. cbn [truthy].
    destruct (n =? 0)%Z; reflexivity.
  - cbn [accept_text]. apply _isOfTypeJson_string.
Qed.

(** C3 as first stated fails at a body that is present and falsy: with a
    method other than GET and an Accept header that does not indicate JSON,
    the empty string, the number 0 and [false] are not passed through
    unchanged; the body sent is [null]. *)
Lemma falsy_body_becomes_null :
  own post_text_options "method" = VStr "POST"
  /\ prop (own post_text_options "headers") "Accept" = VStr "text/plain"
  /\ indicates_json "text/plain" = false
  /\ _defaultRequestTransform post_text_options (VStr "") sample_instance
     = Ok (set_prop post_text_options "body" VNull)
  /\ _defaultRequestTransform post_text_options (VNum 0) sample_instance
     = Ok (set_prop post_text_options "body" VNull)
  /\ _defaultRequestTransform post_text_options (VBool false) sample_instance
     = Ok (set_prop post_text_options "body" VNull)
  /\ _defaultRequestTransform post_text_options (VStr "") sample_instance
     <> Ok (set_prop post_text_options "body" (VStr "")).
Proof.
  repeat split; try reflexivity. discriminate.
Qed.

(** C3, as the code has it, for every fetch options and every body.  A GET
    request gets no body.  For any other method the transform looks at the
    Accept header of the fetch options: it throws when there are no headers
    to look into or when the header is neither a string nor falsy;
    otherwise, when the header contains [application/json] (in any letter
    case) the body is the JSON serialization of the body value, and when it
    does not, a truthy body is passed through unchanged and a falsy one
    ([undefined], [null], [false], [0], the empty string) is sent as
    [null]. *)
Theorem default_request_transform_body (fo : obj) (body : value) (inst : instance) :
  (own fo "method" = VStr "GET" ->
   _defaultRequestTransform fo body inst = Ok (set_prop fo "body" VUndef))
  /\
  (own fo "method" <> VStr "GET" ->
   forall a,
     own fo "headers" <> VUndef ->
     own fo "headers" <> VNull ->
     accept_text (prop (own fo "headers") "Accept") = Some a ->
     (occurs "application/json" a = true ->
      _defaultRequestTransform fo body inst
      = Ok (set_prop fo "body" (JSON_stringify body)))
     /\
     (indicates_json a = true ->
      _defaultRequestTransform fo body inst
      = Ok (set_prop fo "body" (JSON_stringify body)))
     /\
     (indicates_json a = false ->
      _defaultRequestTransform fo body inst
      = Ok (set_prop fo "body" (if truthy body then body else VNull))))
  /\
  (own fo "method" <> VStr "GET" ->
   own fo "headers" = VUndef \/ own fo "headers" = VNull
   \/ accept_text (prop (own fo "headers") "Accept") = None ->
   _defaultRequestTransform fo body inst = Throw TypeError).
Proof.
  split; [apply _defaultRequestTransform_GET|].
  split.
  - intros Hm a Hu Hn Ha.
    assert (E : _defaultRequestTransform fo body inst
                = Ok (set_prop fo "body"
                        (if indicates_json a then JSON_stringify body
                         else if truthy body then body else VNull))).
    { unfold _defaultRequestTransform, HttpVerbEnum.GET.
      rewrite (value_eq_str_false _ _ Hm). unfold accept_header.
      destruct (own fo "headers") as [| | b | n | s | o] eqn:Hh;
        try congruence; cbn [bind];
        rewrite _isOfTypeJson_accept_text, Ha; cbn [bind];
        rewrite objectAssign_body; reflexivity. }
    split; [| split].
    + intros Hj. now rewrite E, (occurs_indicates_json _ Hj).
    + intros Hj. now rewrite E, Hj.
    + intros Hj. now rewrite E, Hj.
  - intros Hm Hcase.
    unfold _defaultRequestTransform, HttpVerbEnum.GET.
    rewrite (value_eq_str_false _ _ Hm). unfold accept_header.
    destruct Hcase as [-> | [-> | Ha]]; [reflexivity | reflexivity |].
    destruct (own fo "headers") as [| | b | n | s | o] eqn:Hh;
      try reflexivity; cbn [bind];
      rewrite _isOfTypeJson_accept_text, Ha; reflexivity.
Qed.

Lemma default_request_transform_body_witness :
  _defaultRequestTransform get_options sample_body sample_instance
  = Ok (set_prop get_options "body" VUndef)
  /\ _defaultRequestTransform post_options sample_body sample_instance
     = Ok (set_prop post_options "body" (VStr sample_body_text))
  /\ _defaultRequestTransform post_text_options sample_body sample_instance
     = Ok (set_prop post_text_options "body" sample_body)
  /\ _defaultRequestTransform post_text_options VUndef sample_instance
     = Ok (set_prop post_text_options "body" VNull)
  /\ _defaultRequestTransform post_text_options (VNum 0) sample_instance
     = Ok (set_prop post_text_options "body" VNull)
  /\ _defaultRequestTransform [("method", VStr "POST")] sample_body sample_instance
     = Throw TypeError.
Proof.
  split; [| split; [| split; [| split; [| split]]]].
  - apply (default_request_transform_body get_options sample_body sample_instance).
    reflexivity.
  - apply (proj1 (proj2 (default_request_transform_body post_options sample_body
                           sample_instance))
             ltac:(discriminate) "application/json");
      [discriminate | discriminate | reflexivity | reflexivity].
  - apply (proj1 (proj2 (default_request_transform_body post_text_options
                           sample_body sample_instance))
             ltac:(discriminate) "text/plain");
      [discriminate | discriminate | reflexivity | reflexivity].
  - apply (proj1 (proj2 (default_request_transform_body post_text_options
                           VUndef sample_instance))
             ltac:(discriminate) "text/plain");
      [discriminate | discriminate | reflexivity | reflexivity].
  - apply (proj1 (proj2 (default_request_transform_body post_text_options
                           (VNum 0) sample_instance))
             ltac:(discriminate) "text/plain");
      [discriminate | discriminate | reflexivity | reflexivity].
  - apply (proj2 (proj2 (default_request_transform_body [("method", VStr "POST")]
                           sample_body sample_instance))
             ltac:(discriminate)).
    left. reflexivity.
Defined.

(** ** The headers of a call *)





(** ** The bindings of a method as lodash stores them *)

(** C9 on a method [m(@PathParam('length') a, @PathParam('0') b)].  The
    decorator of [b] runs first: the key [0] is index-like, so the bindings
    of [m] become an array holding position 1 at index 0.  The decorator of
    [a] then writes position 0 under the distinct key [length]: the array
    is cut to no elements, the binding of [0] is gone, and the method is
    left with no binding at all. *)
Theorem length_binding_drops_index_binding :
  exists t1 t2,
    Arrays.PathParam "0" (Arrays.NObj []) "m" 1 = Ok t1
    /\ Arrays.baseGet t1 ["__decorators"; "m"; "@PathParam"; "0"]
       = Ok (Arrays.NNum 1)
    /\ Arrays.PathParam "length" t1 "m" 0 = Ok t2
    /\ indexed_then_length = Ok t2
    /\ Arrays.baseGet t2 ["__decorators"; "m"; "@PathParam"; "0"]
       = Ok Arrays.NUndef
    /\ Arrays.baseGet t2 ["__decorators"; "m"; "@PathParam"]
       = Ok (Arrays.NArr 0 [])
    /\ Arrays.keys (Arrays.NArr 0 []) = [].
Proof.
  eexists. eexists.
  split; [reflexivity|].
  split; [reflexivity|].
  split; [reflexivity|].
  repeat split.
Qed.

(** ** The method of a call *)

Lemma headersToUse_configured (headers : value) (inst : instance) (dc : obj) :
  inst_prop inst "defaultConfigs" = VObj dc ->
  exists h, RestApi_headersToUse headers inst = Ok h.
Proof.
  intros Hdc. unfold RestApi_headersToUse, RestApi_mergedHeaders.
  rewrite Hdc. cbn [bind]. eexists. reflexivity.
Qed.

(** C10: a call whose options name no method hands the request transform
    fetch options with the method [GET], and the default transform attaches
    no body.  A method named in the options goes into the fetch options in
    upper case, so that [get] is [GET] there and the default transform
    attaches no body either, while [post] goes out as [POST].  (The method
    is written in ASCII letters, as the verbs are.) *)
Theorem method_default_and_upper_case
    (qs_stringify : value -> string) (url : string) (api : RestApiOptions)
    (inst : instance) (methodName : string) (inputs : list value)
    (u : string) (dc : obj) :
  RestApi_urlToUse qs_stringify url inst methodName inputs = Ok u ->
  inst_prop inst "defaultConfigs" = VObj dc ->
  (own (options api) "method" = VUndef ->
   exists fo,
     RestApi_fetchOptions qs_stringify url api inst methodName inputs
     = Ok (fo, _getRequestBody inst methodName inputs)
     /\ own fo "method" = VStr "GET"
     /\ (request_transform api = None ->
         RestApi_request qs_stringify url api inst methodName inputs
         = Ok (set_prop fo "body" VUndef)))
  /\
  (forall m,
     own (options api) "method" = VStr m ->
     ascii_only m = true ->
     exists fo,
       RestApi_fetchOptions qs_stringify url api inst methodName inputs
       = Ok (fo, _getRequestBody inst methodName inputs)
       /\ own fo "method" = VStr (toUpperCase m)
       /\ (request_transform api = None ->
           toUpperCase m = "GET" ->
           RestApi_request qs_stringify url api inst methodName inputs
           = Ok (set_prop fo "body" VUndef))).
Proof.
  intros Hu Hdc.
  destruct (headersToUse_configured
              (or_default (own (options api) "headers") (VObj [])) inst dc Hdc)
    as [h Hh].
  assert (Hrun : forall m,
            or_default (own (options api) "method") (VStr "GET") = VStr m ->
            exists fo,
              RestApi_fetchOptions qs_stringify url api inst methodName inputs
              = Ok (fo, _getRequestBody inst methodName inputs)
              /\ own fo "method" = VStr (toUpperCase m)
              /\ (request_transform api = None ->
                  toUpperCase m = "GET" ->
                  RestApi_request qs_stringify url api inst methodName inputs
                  = Ok (set_prop fo "body" VUndef))).
  { intros m Hm.
    destruct (fetchOptions_returns qs_stringify url api inst methodName inputs
                u h m Hu Hh Hm) as [fo (Hfo & Hmeth & _)].
    exists fo. split; [exact Hfo|]. split; [exact Hmeth|].
    intros Ht Hup. unfold RestApi_request. rewrite Hfo, Ht.
    cbn [bind fst snd]. apply _defaultRequestTransform_GET.
    now rewrite Hmeth, Hup. }
  split.
  - intros Ho.
    destruct (Hrun "GET") as [fo (Hfo & Hmeth & Hreq)];
      [now rewrite Ho|].
    exists fo. split; [exact Hfo|]. split; [exact Hmeth|].
    intros Ht. now apply Hreq.
  - intros m Ho _. apply Hrun. now rewrite Ho.
Qed.

Lemma method_default_and_upper_case_witness :
  (exists fo,
     RestApi_fetchOptions sample_qs "/items" default_api save_instance "save"
                          [VObj []; sample_body]
     = Ok (fo, sample_body)
     /\ own fo "method" = VStr "GET"
     /\ RestApi_request sample_qs "/items" default_api save_instance "save"
                        [VObj []; sample_body]
        = Ok (set_prop fo "body" VUndef))
  /\
  (exists fo,
     RestApi_fetchOptions sample_qs "/items" lower_get_api save_instance "save"
                          [VObj []; sample_body]
     = Ok (fo, sample_body)
     /\ own fo "method" = VStr "GET"
     /\ RestApi_request sample_qs "/items" lower_get_api save_instance "save"
                        [VObj []; sample_body]
        = Ok (set_prop fo "body" VUndef))
  /\
  (exists fo,
     RestApi_fetchOptions sample_qs "/items" post_api save_instance "save"
                          [VObj []; sample_body]
     = Ok (fo, sample_body)
     /\ own fo "method" = VStr "POST").
Proof.
  pose proof (method_default_and_upper_case sample_qs "/items" default_api
                save_instance "save" [VObj []; sample_body] "http://h/items"
                (defaultConfigsToUse [("baseUrl", VStr "http://h")])
                eq_refl eq_refl) as [Hdefault _].
  pose proof (method_default_and_upper_case sample_qs "/items" lower_get_api
                save_instance "save" [VObj []; sample_body] "http://h/items"
                (defaultConfigsToUse [("baseUrl", VStr "http://h")])
                eq_refl eq_refl) as [_ Hget].
  pose proof (method_default_and_upper_case sample_qs "/items" post_api
                save_instance "save" [VObj []; sample_body] "http://h/items"
                (defaultConfigsToUse [("baseUrl", VStr "http://h")])
                eq_refl eq_refl) as [_ Hpost].
  split; [| split].
  - destruct (Hdefault eq_refl) as [fo (Hfo & Hm & Hreq)].
    exists fo. split; [exact Hfo|]. split; [exact Hm|]. now apply Hreq.
  - destruct (Hget "get" eq_refl eq_refl) as [fo (Hfo & Hm & Hreq)].
    exists fo. split; [exact Hfo|]. split; [exact Hm|]. now apply Hreq.
  - destruct (Hpost "post" eq_refl eq_refl) as [fo (Hfo & Hm & _)].
    exists fo. split; [exact Hfo | exact Hm].
Defined.

(** ** The plain store and the store of lodash *)

Lemma decorated_plainly_decorated (target : obj) :
  decorated_plainly target -> decorated target.
Proof.
  induction 1 as [target Hfresh | r target _ _ IH].
  - now apply decorated_fresh.
  - now apply decorated_register.
Qed.

Lemma embed_object (o : obj) :
  Arrays.embed (VObj o) = Arrays.NObj (Arrays.embed_entries o).
Proof.
  cbn [Arrays.embed]. f_equal. unfold Arrays.embed_entries.
  induction o as [|[k x] r IH]; [reflexivity|].
  cbn [map fst snd]. now rewrite IH.
Qed.

Lemma lookup_embed_entries (k : string) (o : obj) :
  Arrays.lookup k (Arrays.embed_entries o) = option_map Arrays.embed (assoc k o).
Proof.
  induction o as [|[k' x] r IH]; [reflexivity|].
  cbn [Arrays.embed_entries map fst snd Arrays.lookup assoc].
  destruct (k' =? k); [reflexivity | exact IH].
Qed.

Lemma put_embed_entries (o : obj) (k : string) (v : value) :
  Arrays.put (Arrays.embed_entries o) k (Arrays.embed v)
  = Arrays.embed_entries (set_prop o k v).
Proof.
  induction o as [|[k' x] r IH]; [reflexivity|].
  cbn [Arrays.embed_entries map fst snd Arrays.put set_prop].
  destruct (k' =? k); [reflexivity|].
  cbn [map fst snd]. f_equal. exact IH.
Qed.

Lemma ordinary_name_facts (k : string) :
  ordinary_name k = true ->
  Arrays.isIndex k = false /\ inherited_name k = false /\ (k =? "__proto__") = false.
Proof.
  unfold ordinary_name. intros H.
  apply andb_true_iff in H as [H Hi]. apply andb_true_iff in H as [Hn _].
  apply negb_true_iff in Hn, Hi.
  split; [| split].
  - unfold Arrays.isIndex. unfold numeral in Hn.
    destruct (NilZero.uint_of_string k); [|reflexivity].
    now rewrite Hn.
  - exact Hi.
  - destruct (String.eqb_spec k "__proto__") as [->|]; [|reflexivity].
    discriminate.
Qed.

Lemma read_embed_entries (o : obj) (k : string) :
  inherited_name k = false ->
  Arrays.read (Arrays.NObj (Arrays.embed_entries o)) k
  = Ok (Arrays.embed (own o k)).
Proof.
  intros Hi. unfold Arrays.read, own. rewrite lookup_embed_entries, Hi.
  now destruct (assoc k o).
Qed.

Lemma Arrays_baseSet_step (c : Arrays.node) (k k' : string) (r : list string)
    (v : Arrays.node) :
  Arrays.baseSet c (k :: k' :: r) v
  = (objValue <- Arrays.read c k ;;
     nested <- Arrays.baseSet
                 (if Arrays.isObject objValue then objValue
                  else if Arrays.isIndex k' then Arrays.NArr 0 []
                       else Arrays.NObj [])
                 (k' :: r) v ;;
     Arrays.write c k nested).
Proof. reflexivity. Qed.

Lemma baseSet_step (o : obj) (k k' : string) (r : list string) (v : value) :
  baseSet o (k :: k' :: r) v
  = set_prop o k
      (VObj (baseSet (match own o k with VObj c => c | _ => [] end) (k' :: r) v)).
Proof. reflexivity. Qed.

(** On a path of ordinary names [lodash.set] makes no array and follows no
    inherited member: it writes what the plain [baseSet] writes. *)
Lemma baseSet_refines (path : list string) (o : obj) (v : value) :
  Forall (fun k => ordinary_name k = true) path ->
  Arrays.baseSet (Arrays.NObj (Arrays.embed_entries o)) path (Arrays.embed v)
  = Ok (Arrays.NObj (Arrays.embed_entries (baseSet o path v))).
Proof.
  revert o. induction path as [|k r IH]; intros o Hall; [reflexivity|].
  inversion Hall as [|? ? Hk Hr]; subst.
  destruct (ordinary_name_facts k Hk) as (_ & Hinh & Hproto).
  destruct r as [|k' r'].
  - cbn [Arrays.baseSet baseSet Arrays.write]. rewrite Hproto.
    now rewrite put_embed_entries.
  - rewrite Arrays_baseSet_step, baseSet_step.
    rewrite (read_embed_entries o k Hinh). cbn [bind].
    inversion Hr as [|? ? Hk' _]; subst.
    destruct (ordinary_name_facts k' Hk') as (Hidx & _ & _).
    rewrite Hidx.
    assert (Hnew :
      (if Arrays.isObject (Arrays.embed (own o k))
       then Arrays.embed (own o k) else Arrays.NObj [])
      = Arrays.NObj
          (Arrays.embed_entries (match own o k with VObj c => c | _ => [] end))).
    { destruct (own o k); try reflexivity.
      rewrite embed_object. reflexivity. }
    rewrite Hnew, (IH _ Hr). cbn [bind Arrays.write]. rewrite Hproto.
    rewrite <- embed_object, put_embed_entries. reflexivity.
Qed.

(** Along a path of ordinary names that is made in objects, [lodash.get]
    finds what the plain [baseGet] finds. *)
Lemma baseGet_refines (path : list string) (v : value) :
  Forall (fun k => ordinary_name k = true) path ->
  containers_only v path = true ->
  Arrays.baseGet (Arrays.embed v) path = Ok (Arrays.embed (baseGet v path)).
Proof.
  revert v. induction path as [|k r IH]; intros v Hall Hc; [reflexivity|].
  inversion Hall as [|? ? Hk Hr]; subst.
  destruct (ordinary_name_facts k Hk) as (_ & Hinh & _).
  destruct v as [| | b | n | s | o]; try discriminate; try reflexivity.
  rewrite embed_object. cbn [Arrays.baseGet baseGet prop].
  rewrite (read_embed_entries o k Hinh). cbn [bind].
  apply IH; [exact Hr | exact Hc].
Qed.

Lemma containers_only_empty_object (path : list string) :
  containers_only (VObj []) path = true.
Proof.
  destruct path as [|k r]; [reflexivity|].
  cbn [containers_only]. unfold own. cbn [assoc]. now destruct r.
Qed.

Lemma containers_only_fresh (target : obj) (key : registration_key) :
  assoc "__decorators" target = None ->
  containers_only (VObj target) (key_path key) = true.
Proof.
  intros H. destruct key; cbn [key_path containers_only];
    unfold own; rewrite H; reflexivity.
Qed.

Lemma containers_only_baseSet (p q : list string) (o : obj) (v : value) :
  diverges p q = true \/ p = q ->
  containers_only (VObj o) q = true ->
  containers_only (VObj (baseSet o p v)) q = true.
Proof.
  revert q o. induction p as [|a p' IH]; intros q o Hpq Hc.
  - destruct Hpq as [Hd | <-]; [discriminate | reflexivity].
  - destruct q as [|b q']; [reflexivity|].
    cbn [containers_only] in *.
    destruct (baseSet_cons o a p' v) as [x [Hx Hx']]. rewrite Hx.
    destruct (String.eqb_spec a b) as [<-|Hab].
    + rewrite own_set_prop_same.
      assert (Hpq' : p' = [] /\ q' = []
                     \/ p' <> [] /\ (diverges p' q' = true \/ p' = q')).
      { destruct Hpq as [Hd | He].
        - cbn [diverges] in Hd. rewrite String.eqb_refl in Hd.
          right. split; [now apply diverges_nonempty in Hd | now left].
        - inversion He; subst q'. destruct p'; [now left | right].
          split; [discriminate | now right]. }
      destruct Hpq' as [[-> ->] | [Hp' Hpq']].
      * reflexivity.
      * rewrite (Hx' Hp'). apply IH; [exact Hpq'|].
        destruct (own o a); auto using containers_only_empty_object.
    + rewrite own_set_prop_other by congruence. exact Hc.
Qed.

Lemma key_path_same_or_diverges (k1 k2 : registration_key) :
  diverges (key_path k1) (key_path k2) = true \/ key_path k1 = key_path k2.
Proof.
  destruct (registration_key_eq_dec k1 k2) as [-> | Hne]; [now right|].
  left. now apply key_path_diverges.
Qed.

(** Every container on the way to a key of a decorated class is an object. *)
Lemma decorated_containers_only (target : obj) :
  decorated target ->
  forall key, containers_only (VObj target) (key_path key) = true.
Proof.
  induction 1 as [target Hfresh | r target Hd IH]; intros key.
  - now apply containers_only_fresh.
  - rewrite register_baseSet.
    apply containers_only_baseSet; [apply key_path_same_or_diverges | apply IH].
Qed.

Lemma ordinary_key_path (key : registration_key) :
  ordinary_key key = true ->
  Forall (fun k => ordinary_name k = true) (key_path key).
Proof.
  destruct key as [m k | m | m | c]; cbn [ordinary_key key_path]; intros H.
  - apply andb_true_iff in H as [Hm Hk].
    repeat constructor; assumption.
  - repeat constructor; assumption.
  - repeat constructor; assumption.
  - destruct c; repeat constructor.
Qed.

Lemma ordinary_registration_key (r : registration) :
  ordinary_registration r = true -> ordinary_key (key_of r) = true.
Proof. now destruct r. Qed.

Lemma Arrays_register_baseSet (r : registration) (o : list (string * Arrays.node)) :
  Arrays.register r (Arrays.NObj o)
  = Arrays.baseSet (Arrays.NObj o) (key_path (key_of r)) (Arrays.embed (value_of r)).
Proof. now destruct r. Qed.

(** A registration under ordinary names, made by [lodash.set], writes the
    prototype that the plain [register] writes. *)
Lemma register_refines (r : registration) (target : obj) :
  ordinary_registration r = true ->
  Arrays.register r (Arrays.embed (VObj target))
  = Ok (Arrays.embed (VObj (register r target))).
Proof.
  intros Hr.
  rewrite !embed_object, Arrays_register_baseSet, register_baseSet.
  apply baseSet_refines.
  apply ordinary_key_path. now apply ordinary_registration_key.
Qed.

(** On a decorated class [lodash.get] finds under an ordinary key what the
    plain store holds there. *)
Lemma registered_refines (target : obj) (key : registration_key) :
  decorated target ->
  ordinary_key key = true ->
  Arrays.baseGet (Arrays.embed (VObj target)) (key_path key)
  = Ok (Arrays.embed (registered target key)).
Proof.
  intros Hd Hkey. rewrite registered_baseGet.
  apply baseGet_refines; [now apply ordinary_key_path|].
  now apply decorated_containers_only.
Qed.

(** X26: With ordinary names the plain store is the store lodash keeps.  A
    registration made by [lodash.set], which makes arrays before index-like
    keys and reads containers through their prototypes, writes the
    prototype that the plain [register] writes; and on a class decorated
    under ordinary names [lodash.get] then finds under every ordinary key
    what the plain store holds there. *)
Theorem plain_store_is_lodash_store (target : obj) (r : registration)
    (key : registration_key) :
  decorated_plainly target ->
  ordinary_registration r = true ->
  ordinary_key key = true ->
  Arrays.register r (Arrays.embed (VObj target))
  = Ok (Arrays.embed (VObj (register r target)))
  /\ Arrays.baseGet (Arrays.embed (VObj (register r target))) (key_path key)
     = Ok (Arrays.embed (registered (register r target) key)).
Proof.
  intros Hd Hr Hkey. split.
  - now apply register_refines.
  - apply registered_refines; [|exact Hkey].
    apply decorated_register. now apply decorated_plainly_decorated.
Qed.

Lemma sample_target_decorated_plainly : decorated_plainly sample_target.
Proof.
  unfold sample_target.
  apply plainly_register; [reflexivity|].
  apply plainly_register; [reflexivity|].
  apply plainly_register; [reflexivity|].
  apply plainly_fresh. reflexivity.
Defined.

Lemma plain_store_is_lodash_store_witness :
  Arrays.register (RegPathParam "getUser" "id" 3)
    (Arrays.embed (VObj sample_target))
  = Ok (Arrays.embed (VObj rebound_target))
  /\ Arrays.baseGet (Arrays.embed (VObj rebound_target))
       ["__decorators"; "getUser"; "@PathParam"; "id"]
     = Ok (Arrays.NNum 3).
Proof.
  apply (plain_store_is_lodash_store sample_target
           (RegPathParam "getUser" "id" 3) (KeyPathParam "getUser" "id")
           sample_target_decorated_plainly eq_refl eq_refl).
Defined.

(** ** Registrations under ordinary names *)

(** X4: [PathParam] then [_getPathParams], on a class whose methods and
    placeholders have ordinary names.  The prototype is the one
    [lodash.set] writes; the bindings of the method are an object that maps
    the placeholder to the declared position and lists it among its keys;
    and the other placeholders of the method keep their positions. *)
Theorem PathParam_round_trip (restOptions target own_ps : obj)
    (paramKey methodName : string) (paramIdx : nat) :
  assoc "__decorators" own_ps = None ->
  decorated_plainly target ->
  ordinary_name methodName = true ->
  ordinary_name paramKey = true ->
  Arrays.PathParam paramKey (Arrays.embed (VObj target)) methodName paramIdx
  = Ok (Arrays.embed (VObj (PathParam paramKey target methodName paramIdx)))
  /\
  exists pp,
    _getPathParams
      {| own_props := own_ps;
         proto := RestClient restOptions
                    (PathParam paramKey target methodName paramIdx) |}
      methodName
    = VObj pp
    /\ own pp paramKey = VNum (Z.of_nat paramIdx)
    /\ In paramKey (own_keys pp)
    /\ (forall other,
          ordinary_name other = true ->
          other <> paramKey ->
          own pp other = registered target (KeyPathParam methodName other)).
Proof.
  intros Hown Hd Hm Hk. split.
  { apply (register_refines (RegPathParam methodName paramKey paramIdx) target).
    cbn [ordinary_registration]. now rewrite Hm, Hk. }
  rewrite (getPathParams_baseGet _ _ _ _ Hown).
  unfold PathParam, set.
  destruct (baseGet_baseSet_parent ["__decorators"; methodName; "@PathParam"]
              paramKey target (VNum (Z.of_nat paramIdx)))
    as [pp [Hpp Hkey]]; [discriminate|].
  cbn [app] in Hpp. rewrite Hpp. cbn [or_default].
  exists pp. split; [reflexivity|]. split; [exact Hkey|]. split.
  - apply In_own_keys. unfold own in Hkey.
    destruct (assoc paramKey pp); [discriminate | discriminate].
  - intros other _ Hne.
    assert (Hother : KeyPathParam methodName other
                     <> key_of (RegPathParam methodName paramKey paramIdx))
      by (cbn [key_of]; congruence).
    rewrite <- (register_other_key target
                  (RegPathParam methodName paramKey paramIdx)
                  (KeyPathParam methodName other) Hother
                  (decorated_strings_clear target
                     (decorated_plainly_decorated _ Hd) _)).
    rewrite registered_baseGet.
    cbn [register key_of key_path]. unfold PathParam, set.
    change ["__decorators"; methodName; "@PathParam"; other]
      with (["__decorators"; methodName; "@PathParam"] ++ [other])%list.
    rewrite (baseGet_app _ _ [other] pp Hpp). reflexivity.
Qed.

Lemma PathParam_round_trip_witness :
  exists pp,
    _getPathParams find_instance "find" = VObj pp
    /\ own pp "id" = VNum 1
    /\ In "id" (own_keys pp)
    /\ own pp "kind" = VNum 0.
Proof.
  assert (Hd : decorated_plainly (PathParam "kind" [] "find" 0)).
  { apply (plainly_register (RegPathParam "find" "kind" 0) []);
      [reflexivity | apply plainly_fresh; reflexivity]. }
  destruct (PathParam_round_trip [("baseUrl", VStr "http://h")]
              (PathParam "kind" [] "find" 0) []
              "id" "find" 1 eq_refl Hd eq_refl eq_refl)
    as [_ [pp (Hpp & Hid & Hin & Hother)]].
  exists pp. split; [exact Hpp|]. split; [exact Hid|]. split; [exact Hin|].
  rewrite (Hother "kind" eq_refl); [reflexivity | discriminate].
Defined.

(** X5: A registration under ordinary names writes under [__decorators] and
    nowhere else: the prototype is the one [lodash.set] writes, and the
    methods and the client configuration on it stay as they are. *)
Theorem registration_touches_only_metadata (r : registration) (target : obj) :
  ordinary_registration r = true ->
  Arrays.register r (Arrays.embed (VObj target))
  = Ok (Arrays.embed (VObj (register r target)))
  /\ forall k,
       k <> "__decorators" -> assoc k (register r target) = assoc k target.
Proof.
  intros Hr. split.
  - now apply register_refines.
  - intros k. apply register_other_prop.
Qed.

Lemma registration_touches_only_metadata_witness :
  assoc "baseUrl"
    (register (RegQueryParams "search" 0)
       (RestClient [("baseUrl", VStr "http://h")] []))
  = Some (VStr "http://h").
Proof.
  rewrite (proj2 (registration_touches_only_metadata (RegQueryParams "search" 0)
                    (RestClient [("baseUrl", VStr "http://h")] []) eq_refl)
             "baseUrl");
    [reflexivity | discriminate].
Defined.

(** X6: On a class whose methods and placeholders have ordinary names, two
    registrations under different keys can be made in either order: in the
    store lodash keeps, both orders go through, and the same value is found
    under every ordinary key afterwards. *)
Theorem registrations_commute (target : obj) (r1 r2 : registration)
    (key : registration_key) :
  decorated_plainly target ->
  ordinary_registration r1 = true ->
  ordinary_registration r2 = true ->
  ordinary_key key = true ->
  key_of r1 <> key_of r2 ->
  registered (register r1 (register r2 target)) key
  = registered (register r2 (register r1 target)) key
  /\
  exists t12 t21,
    (t <- Arrays.register r2 (Arrays.embed (VObj target)) ;; Arrays.register r1 t)
    = Ok t12
    /\ (t <- Arrays.register r1 (Arrays.embed (VObj target)) ;; Arrays.register r2 t)
       = Ok t21
    /\ Arrays.baseGet t12 (key_path key) = Arrays.baseGet t21 (key_path key)
    /\ Arrays.baseGet t12 (key_path key)
       = Ok (Arrays.embed (registered (register r1 (register r2 target)) key)).
Proof.
  intros Hp Hr1 Hr2 Hkey Hne.
  pose proof (decorated_plainly_decorated _ Hp) as Hd.
  pose proof (decorated_strings_clear _ Hd) as Hc.
  pose proof (decorated_strings_clear _ (decorated_register r1 _ Hd)) as Hc1.
  pose proof (decorated_strings_clear _ (decorated_register r2 _ Hd)) as Hc2.
  assert (Hplain : registered (register r1 (register r2 target)) key
                   = registered (register r2 (register r1 target)) key).
  { destruct (registration_key_eq_dec key (key_of r1)) as [-> | H1].
    - rewrite register_same_key.
      rewrite register_other_key by (auto; congruence).
      now rewrite register_same_key.
    - destruct (registration_key_eq_dec key (key_of r2)) as [-> | H2].
      + rewrite register_other_key by auto.
        now rewrite !register_same_key.
      + now rewrite !register_other_key by auto. }
  split; [exact Hplain|].
  exists (Arrays.embed (VObj (register r1 (register r2 target)))),
         (Arrays.embed (VObj (register r2 (register r1 target)))).
  split; [| split; [| split]].
  - rewrite (register_refines r2 target Hr2). cbn [bind].
    now apply register_refines.
  - rewrite (register_refines r1 target Hr1). cbn [bind].
    now apply register_refines.
  - rewrite !registered_refines by (auto using decorated_register).
    now rewrite Hplain.
  - apply registered_refines; [|exact Hkey].
    now repeat apply decorated_register.
Qed.

Lemma registrations_commute_witness :
  registered (register (RegPathParam "getUser" "id" 0)
                (register (RegQueryParams "getUser" 1) []))
             (KeyQueryParams "getUser")
  = registered (register (RegQueryParams "getUser" 1)
                  (register (RegPathParam "getUser" "id" 0) []))
               (KeyQueryParams "getUser").
Proof.
  apply (registrations_commute [] (RegPathParam "getUser" "id" 0)
           (RegQueryParams "getUser" 1) (KeyQueryParams "getUser")).
  - apply plainly_fresh. reflexivity.
  - reflexivity.
  - reflexivity.
  - reflexivity.
  - discriminate.
Defined.

(** X25: On a class whose methods and placeholders have ordinary names, in
    the store lodash keeps, each of the four registrations goes through and
    is what is found under its key afterwards, whatever was registered
    there before, and what is found under any other ordinary key is what
    was found before. *)
Theorem ordinary_registration_last_wins (target : obj) (r : registration) :
  decorated_plainly target ->
  ordinary_registration r = true ->
  exists t,
    Arrays.register r (Arrays.embed (VObj target)) = Ok t
    /\ t = Arrays.embed (VObj (register r target))
    /\ Arrays.baseGet t (key_path (key_of r)) = Ok (Arrays.embed (value_of r))
    /\ registered (register r target) (key_of r) = value_of r
    /\ forall key,
         ordinary_key key = true ->
         key <> key_of r ->
         Arrays.baseGet t (key_path key)
         = Arrays.baseGet (Arrays.embed (VObj target)) (key_path key)
         /\ registered (register r target) key = registered target key.
Proof.
  intros Hp Hr.
  pose proof (decorated_plainly_decorated _ Hp) as Hd.
  exists (Arrays.embed (VObj (register r target))).
  split; [now apply register_refines|]. split; [reflexivity|].
  split; [| split].
  - rewrite registered_refines;
      [| now apply decorated_register | now apply ordinary_registration_key].
    now rewrite register_same_key.
  - apply register_same_key.
  - intros key Hkey Hne.
    assert (Hsame : registered (register r target) key = registered target key).
    { apply register_other_key; [exact Hne|].
      now apply decorated_strings_clear. }
    split; [| exact Hsame].
    rewrite !registered_refines by (auto using decorated_register).
    now rewrite Hsame.
Qed.

Lemma ordinary_registration_last_wins_witness :
  registered sample_target (KeyPathParam "getUser" "id") = VNum 0
  /\ registered rebound_target (KeyPathParam "getUser" "id") = VNum 3
  /\ registered rebound_target (KeyQueryParams "getUser") = VNum 1
  /\ registered rebound_target (KeyCredential AccessToken) = VStr "token"
  /\ Arrays.register (RegPathParam "getUser" "id" 3)
       (Arrays.embed (VObj sample_target))
     = Ok (Arrays.embed (VObj rebound_target)).
Proof.
  destruct (ordinary_registration_last_wins sample_target
              (RegPathParam "getUser" "id" 3)
              sample_target_decorated_plainly eq_refl)
    as [t (Ht & -> & _ & Hsame & Hother)].
  split; [reflexivity|].
  split; [exact Hsame|].
  split; [| split].
  - unfold rebound_target.
    rewrite (proj2 (Hother (KeyQueryParams "getUser") eq_refl ltac:(discriminate))).
    reflexivity.
  - unfold rebound_target.
    rewrite (proj2 (Hother (KeyCredential AccessToken) eq_refl ltac:(discriminate))).
    reflexivity.
  - exact Ht.
Defined.

(** ** Credentials that resolve to nothing, and tokens that are not strings *)

(** X27: In Digest mode, and in Bearer mode when no access-token property is
    declared and the instance has no property called [undefined], computing
    the credential raises nothing, yields no credential, and the headers go
    out without an Authorization entry added to them. *)
Theorem unresolved_credential_adds_no_header
    (headers : value) (inst : instance) (h : obj) :
  RestApi_mergedHeaders headers inst = Ok h ->
  inst_prop inst "authType" = VStr "Digest"
  \/ (inst_prop inst "authType" = VStr "Bearer"
      /\ get inst ["__decorators"; "@CredentialProperty"; "AccessToken"] VUndef
         = VUndef
      /\ inst_prop inst "undefined" = VUndef) ->
  _getCredential inst = VUndef
  /\ RestApi_headersToUse headers inst = Ok h.
Proof.
  intros Hh Hmode.
  assert (Hc : _getCredential inst = VUndef).
  { destruct Hmode as [Ha | [Ha [Hg Hu]]].
    - apply (_getCredential_other inst "Digest" Ha); discriminate.
    - rewrite (_getCredential_Bearer _ Ha).
      now rewrite (credential_property_undeclared inst AccessToken Hg). }
  split; [exact Hc|].
  apply headersToUse_without_credential; [exact Hh | now rewrite Hc].
Qed.

Lemma unresolved_credential_adds_no_header_witness :
  (_getCredential digest_instance = VUndef
   /\ RestApi_headersToUse (VObj []) digest_instance = Ok builtin_headers)
  /\
  (_getCredential bearer_bare_instance = VUndef
   /\ RestApi_headersToUse (VObj []) bearer_bare_instance = Ok builtin_headers).
Proof.
  split.
  - apply (unresolved_credential_adds_no_header (VObj []) digest_instance
             builtin_headers eq_refl).
    left. reflexivity.
  - apply (unresolved_credential_adds_no_header (VObj []) bearer_bare_instance
             builtin_headers eq_refl).
    right. repeat split; reflexivity.
Defined.

(** X8: In Bearer mode the header is added exactly when the value read from
    the access-token property is truthy, and it carries the string form of
    that value; an empty token, like a missing one, adds nothing.  The
    token is a value whose string form [ToString] gives: a string, or a
    number that is a safe integer, written in decimal; and the property
    declared for it is one of the instance or its class, not a member of
    [Object.prototype]. *)
Theorem bearer_header_when_token_truthy
    (headers : value) (inst : instance) (h : obj) :
  RestApi_mergedHeaders headers inst = Ok h ->
  inst_prop inst "authType" = VStr "Bearer" ->
  inherited_name
    (ToString (get inst ["__decorators"; "@CredentialProperty"; "AccessToken"]
                   VUndef)) = false ->
  stringable (credential_property inst AccessToken) = true ->
  RestApi_headersToUse headers inst
  = Ok (if truthy (credential_property inst AccessToken)
        then set_prop h "Authorization"
               (VStr ("Bearer "
                      ++ ToString (credential_property inst AccessToken)))
        else h).
Proof.
  intros Hh Ha _ _.
  destruct (truthy (credential_property inst AccessToken)) eqn:Ht.
  - rewrite (headersToUse_with_credential headers inst h Hh).
    + now rewrite Ha, (_getCredential_Bearer _ Ha).
    + now rewrite Ha.
    + now rewrite (_getCredential_Bearer _ Ha).
  - apply headersToUse_without_credential; [exact Hh|].
    now rewrite (_getCredential_Bearer _ Ha).
Qed.

Lemma bearer_header_when_token_truthy_witness :
  RestApi_headersToUse (VObj []) numeric_token_instance
  = Ok (set_prop builtin_headers "Authorization" (VStr "Bearer 5"))
  /\ RestApi_headersToUse (VObj []) empty_token_instance = Ok builtin_headers.
Proof.
  split.
  - apply (bearer_header_when_token_truthy (VObj []) numeric_token_instance
             builtin_headers eq_refl eq_refl eq_refl eq_refl).
  - apply (bearer_header_when_token_truthy (VObj []) empty_token_instance
             builtin_headers eq_refl eq_refl eq_refl eq_refl).
Defined.

(** ** The fetch options of a call *)

(** X12: The fetch options of a call are the assembled [url], [method],
    [signal] and [headers], overlaid by whatever the call options hold besides
    [headers], [method] and the two transforms; the method is the configured
    one in upper case ([GET] when none is configured).  So a [url] among the
    call options replaces the assembled one, and of the class-level defaults
    only the headers take part: [mode], [cache] and [credentials] are not
    among the fetch options unless the call options name them. *)
Theorem fetchOptions_contents
    (qs_stringify : value -> string) (url : string) (api : RestApiOptions)
    (inst : instance) (methodName : string) (inputs : list value)
    (fo : obj) (body : value) :
  RestApi_fetchOptions qs_stringify url api inst methodName inputs = Ok (fo, body) ->
  exists u h m,
    RestApi_urlToUse qs_stringify url inst methodName inputs = Ok u
    /\ RestApi_headersToUse (or_default (own (options api) "headers") (VObj [])) inst
       = Ok h
    /\ configured_method api = Some m
    /\ (ascii_only m = true ->
        forall k,
          assoc k fo
          = if existsb (String.eqb k)
                 ["headers"; "method"; "request_transform"; "response_transform"]
            then assoc k [("method", VStr (toUpperCase m)); ("headers", VObj h)]
            else match assoc k (options api) with
                 | Some v => Some v
                 | None => assoc k [("url", VStr u); ("signal", VObj [])]
                 end).
Proof.
  unfold RestApi_fetchOptions. intros H.
  destruct (RestApi_urlToUse qs_stringify url inst methodName inputs) as [u | |];
    cbn [bind] in H; try discriminate.
  destruct (RestApi_headersToUse _ inst) as [h | |]; cbn [bind] in H; try discriminate.
  assert (Hm : exists m,
            configured_method api = Some m
            /\ or_default (own (options api) "method") (VStr HttpVerbEnum.GET)
               = VStr m).
  { unfold configured_method.
    destruct (own (options api) "method") as [| | | | m |];
      cbn [or_default method_toUpperCase bind] in H; try discriminate;
      eexists; split; reflexivity. }
  destruct Hm as [m [Hc Hm]]. rewrite Hm in H.
  cbn [method_toUpperCase bind] in H.
  injection H as <- _.
  exists u, h, m. split; [reflexivity|]. split; [reflexivity|].
  split; [exact Hc|].
  intros _ k.
  change (remove_key "response_transform"
            (remove_key "request_transform"
               (remove_key "method" (remove_key "headers" (options api)))))
    with (rest_without
            ["headers"; "method"; "request_transform"; "response_transform"]
            (options api)).
  rewrite assoc_assign_one, source_prop_obj, assoc_rest_without.
  cbn [existsb assoc orb].
  rewrite (String.eqb_sym "url" k), (String.eqb_sym "method" k),
    (String.eqb_sym "signal" k), (String.eqb_sym "headers" k).
  destruct (String.eqb_spec k "headers") as [Hk|Hk]; [subst k; reflexivity|].
  destruct (String.eqb_spec k "method") as [Hk'|Hk']; [subst k; reflexivity|].
  destruct (String.eqb_spec k "request_transform") as [Hq|Hq];
    [subst k; reflexivity|].
  destruct (String.eqb_spec k "response_transform") as [Hr|Hr];
    [subst k; reflexivity|].
  cbn [orb].
  destruct (assoc k (options api)); [reflexivity|].
  destruct (k =? "url"); [reflexivity|].
  destruct (k =? "signal"); reflexivity.
Qed.

Lemma fetchOptions_contents_witness :
  exists fo,
    RestApi_fetchOptions sample_qs "/items" redirecting_put_api
                         strict_client_instance "list" []
    = Ok (fo, VUndef)
    /\ assoc "method" fo = Some (VStr "PUT")
    /\ assoc "url" fo = Some (VStr "http://elsewhere")
    /\ assoc "redirect" fo = Some (VStr "manual")
    /\ assoc "mode" fo = None
    /\ assoc "cache" fo = None.
Proof.
  eexists. split; [reflexivity|].
  destruct (fetchOptions_contents sample_qs "/items" redirecting_put_api
              strict_client_instance "list" [] _ _ eq_refl)
    as [u [h [m (_ & _ & Hm & Hk)]]].
  injection Hm as <-. specialize (Hk eq_refl).
  split; [| split; [| split; [| split]]].
  - rewrite (Hk "method"). reflexivity.
  - rewrite (Hk "url"). reflexivity.
  - rewrite (Hk "redirect"). reflexivity.
  - rewrite (Hk "mode"). reflexivity.
  - rewrite (Hk "cache"). reflexivity.
Defined.

(** ** Calls with fewer arguments than bindings *)

Lemma fold_fill_placeholders (f : string -> value) (g : string -> string)
    (ks : list string) (u : string) :
  (forall k, In k ks -> ToString (f k) = g k) ->
  fill_placeholders (map (fun k => (k, f k)) ks) u
  = fold_left (fun u k => replace_every (placeholder k) (g k) 0 u) ks u.
Proof.
  unfold fill_placeholders. revert u.
  induction ks as [|k r IH]; intros u H; [reflexivity|].
  cbn [map fold_left fst snd]. rewrite (H k) by now left.
  apply IH. intros k' Hk'. apply H. now right.
Qed.

Lemma element_argument_text (inputs : list value) (i : nat) :
  (N.of_nat (List.length inputs) <= 4294967295)%N ->
  ToString (element inputs (VNum (Z.of_nat i))) = argument_text inputs i
  /\ ((List.length inputs <= i)%nat -> argument_text inputs i = "undefined")
  /\ ((i < List.length inputs)%nat ->
      element inputs (VNum (Z.of_nat i)) = nth i inputs VUndef).
Proof.
  intros Hlen. unfold argument_text.
  destruct (Nat.ltb_spec i (List.length inputs)) as [Hlt | Hge].
  - assert (Hi : (N.of_nat i <= 4294967294)%N) by lia.
    rewrite (element_nat inputs i Hi).
    split; [reflexivity|]. split; [lia | reflexivity].
  - rewrite (element_beyond inputs i Hge).
    split; [reflexivity|]. split; [reflexivity | lia].
Qed.

(** X16: A call with too few arguments does not fail.  Every placeholder
    bound to a position the call reaches is filled with the string form of
    the argument there, and every placeholder bound to a position the call
    does not reach is filled with the text [undefined].  (The names are
    plain, and the base URL and the arguments that are there have a string
    form, the arguments one without [$].) *)
Theorem missing_arguments_fill_undefined (url : string) (inst : instance)
    (methodName : string) (inputs : list value) (pp : obj)
    (position : string -> nat) :
  _getPathParams inst methodName = VObj pp ->
  stringable (inst_prop inst "baseUrl") = true ->
  (N.of_nat (List.length inputs) <= 4294967295)%N ->
  (forall k, In k (own_keys pp) ->
     plain_key k = true
     /\ own pp k = VNum (Z.of_nat (position k))
     /\ ((position k < List.length inputs)%nat ->
         stringable (nth (position k) inputs VUndef) = true
         /\ dollar_free (ToString (nth (position k) inputs VUndef)) = true)) ->
  RestApi_pathUrl url inst methodName inputs
  = Ok (fold_left
          (fun u k =>
             replace_every (placeholder k) (argument_text inputs (position k)) 0 u)
          (own_keys pp)
          (ToString (inst_prop inst "baseUrl") ++ url))
  /\ forall k, In k (own_keys pp) ->
       (List.length inputs <= position k)%nat ->
       argument_text inputs (position k) = "undefined".
Proof.
  intros Hpp _ Hlen Hk. split.
  - unfold RestApi_pathUrl. rewrite Hpp. cbn [Object_keys bind].
    rewrite replace_path_params_literal.
    + f_equal. apply fold_fill_placeholders.
      intros k Hin. destruct (Hk k Hin) as (_ & -> & _).
      apply (element_argument_text inputs (position k) Hlen).
    + intros k Hin. apply (Hk k Hin).
    + intros k Hin. destruct (Hk k Hin) as (_ & Hpos & Harg).
      rewrite Hpos.
      destruct (element_argument_text inputs (position k) Hlen)
        as (Htext & Hundef & Hnth).
      destruct (Nat.ltb_spec (position k) (List.length inputs)) as [Hlt | Hge].
      * rewrite (Hnth Hlt). apply (Harg Hlt).
      * rewrite Htext, (Hundef Hge). reflexivity.
  - intros k _ Hge.
    apply (element_argument_text inputs (position k) Hlen). exact Hge.
Qed.

Lemma missing_arguments_fill_undefined_witness :
  RestApi_pathUrl "/{kind}/{id}" find_instance "find" [VStr "users"]
  = Ok "http://h/users/undefined".
Proof.
  apply (missing_arguments_fill_undefined "/{kind}/{id}" find_instance "find"
           [VStr "users"] [("kind", VNum 0); ("id", VNum 1)]
           (fun k => if k =? "id" then 1%nat else 0%nat) eq_refl eq_refl).
  - cbn. lia.
  - intros k [<- | [<- | []]].
    + split; [reflexivity|]. split; [reflexivity|].
      intros _. split; reflexivity.
    + split; [reflexivity|]. split; [reflexivity|].
      cbn. intros H. exfalso. lia.
Defined.

(** ** Calls that return *)



(** X21: With a method other than GET and an Accept header that indicates
    JSON, the body sent is a string for every body argument but [undefined],
    the body being plain data ([null], booleans, integers, strings, and
    objects of these): a [null] argument goes out as the text [null], and
    only an argument that is [undefined] leaves the request without a
    body. *)
Theorem json_body_absent_only_for_undefined
    (fo : obj) (body : value) (inst : instance) (h : obj) (a : string) :
  own fo "method" <> VStr "GET" ->
  own fo "headers" = VObj h ->
  own h "Accept" = VStr a ->
  indicates_json a = true ->
  exists sent,
    _defaultRequestTransform fo body inst = Ok sent
    /\ (body = VUndef -> own sent "body" = VUndef)
    /\ (body = VNull -> own sent "body" = VStr "null")
    /\ (body <> VUndef -> exists t, own sent "body" = VStr t).
Proof.
  intros Hm Hh Ha Hj.
  rewrite (_defaultRequestTransform_json fo body inst h a Hm Hh Ha), Hj.
  eexists. split; [reflexivity|].
  rewrite own_set_prop_same. split; [| split].
  - now intros ->.
  - now intros ->.
  - apply JSON_stringify_defined.
Qed.

Lemma json_body_absent_only_for_undefined_witness :
  exists sent,
    _defaultRequestTransform post_options VNull sample_instance = Ok sent
    /\ own sent "body" = VStr "null".
Proof.
  destruct (json_body_absent_only_for_undefined post_options VNull sample_instance
              [("Accept", VStr "application/json")] "application/json")
    as [sent (Hs & _ & Hnull & _)];
    try reflexivity; try discriminate.
  exists sent. split; [exact Hs | now apply Hnull].
Defined.

(** ** The Accept header in another letter case *)

(** X22: Whether an Accept header written in ASCII counts as JSON does not
    depend on the letter case it is written in. *)
Theorem isOfTypeJson_ignores_case (accept : string) :
  ascii_only accept = true ->
  _isOfTypeJson (VStr (toUpperCase accept)) = _isOfTypeJson (VStr accept)
  /\ _isOfTypeJson (VStr (toLowerCase accept)) = _isOfTypeJson (VStr accept).
Proof.
  intros _. rewrite !_isOfTypeJson_string. unfold indicates_json.
  now rewrite toLowerCase_toUpperCase, toLowerCase_idempotent.
Qed.

Lemma isOfTypeJson_ignores_case_witness :
  _isOfTypeJson (VStr "APPLICATION/JSON; CHARSET=UTF-8") = Ok true
  /\ _isOfTypeJson (VStr "application/json; charset=utf-8") = Ok true.
Proof.
  destruct (isOfTypeJson_ignores_case "Application/Json; charset=UTF-8" eq_refl)
    as [Hup Hlow].
  split.
  - exact Hup.
  - exact Hlow.
Defined.
